(** * AssetsVCSSynchronizer: synchronising asset file groups with the VCS

    A shallow embedding of
    [Code/Sandbox/Plugins/EditorCommon/VersionControl/AssetsVCSSynchronizer.cpp]:
    the set reconciler [FindMissingStrings], the group collectors, the
    callback-chained pipeline of [CAssetsVCSSynchronizer::Sync] and the layers
    overload.  Vectors are lists, a vector taken by non-const reference is
    returned next to the result, and the asynchronous calls are written in
    continuation-passing style over a state that carries the outside world
    and the log of the calls made into it. *)

From Stdlib Require Import List String Ascii ZArith NArith Bool Arith Lia.
From Stdlib Require Import Permutation Sorted OrderedTypeEx.
Import ListNotations.

Set Implicit Arguments.
Set Warnings "-register-all".
Local Open Scope list_scope.

(** ** Strings and their two orderings *)

Module CryString.

(** [tolower] of the C library on one character (ASCII 'A'..'Z' only). *)
Definition tolower (c : ascii) : ascii :=
  let n := N_of_ascii c in
  if (65 <=? n)%N && (n <=? 90)%N then ascii_of_N (n + 32) else c.

Fixpoint MakeLower (s : string) : string :=
  match s with
  | EmptyString => EmptyString
  | String c t => String (tolower c) (MakeLower t)
  end.

(** Modelled from the spec: [operator<] of the engine's [string] class is
    declared outside this file, and the spec is silent on it; it is taken
    to be what the class defines, [compare(a, b) < 0] with the byte-wise
    [strcmp], the ordering [stricmp] is the case-insensitive variant of. *)
Definition less (a b : string) : bool := String.ltb a b.

(** Modelled from the spec: [stl::less_stricmp<string>] is declared outside
    this file; it is [stricmp(a, b) < 0], the comparison of the spec's
    "case-insensitive matching": [strcmp] after [tolower] on every byte. *)
Definition less_stricmp (a b : string) : bool :=
  String.ltb (MakeLower a) (MakeLower b).

(** A path without capitals: the two orderings agree on such paths. *)
Definition lower_case (s : string) : Prop := MakeLower s = s.

End CryString.

(** ** The standard algorithms the file calls *)

(** What the C++ standard asks of a comparator handed to [std::sort]. *)
Record StrictWeakOrder (A : Type) (comp : A -> A -> bool) : Prop := {
  swo_irrefl : forall a, comp a a = false;
  swo_trans : forall a b c, comp a b = true -> comp b c = true -> comp a c = true;
  swo_negtrans : forall a b c, comp a b = false -> comp b c = false -> comp a c = false
}.

(** A range is sorted for [comp] when no later element is below an earlier one. *)
Definition sorted_by (A : Type) (comp : A -> A -> bool) : list A -> Prop :=
  StronglySorted (fun a b => comp b a = false).

(** [std::sort] and [std::partition] are not stable, and the order they leave
    equivalent elements in is unspecified: the model takes any pair of
    functions with the guarantees of the standard.  [std_partition] returns
    the rearranged vector and the index of the partition point. *)
Class StdAlgorithms : Type := {
  std_sort : forall A : Type, (A -> A -> bool) -> list A -> list A;
  std_sort_perm : forall (A : Type) (comp : A -> A -> bool) (l : list A),
    Permutation l (std_sort comp l);
  std_sort_sorted : forall (A : Type) (comp : A -> A -> bool) (l : list A),
    StrictWeakOrder comp -> sorted_by comp (std_sort comp l);
  std_partition : forall A : Type, (A -> bool) -> list A -> list A * nat;
  std_partition_perm : forall (A : Type) (p : A -> bool) (l : list A),
    Permutation l (fst (std_partition p l));
  std_partition_le : forall (A : Type) (p : A -> bool) (l : list A),
    snd (std_partition p l) <= List.length (fst (std_partition p l));
  std_partition_front : forall (A : Type) (p : A -> bool) (l : list A),
    forallb p (firstn (snd (std_partition p l)) (fst (std_partition p l))) = true;
  std_partition_back : forall (A : Type) (p : A -> bool) (l : list A),
    forallb (fun x => negb (p x))
      (skipn (snd (std_partition p l)) (fst (std_partition p l))) = true
}.

(** [std::set_difference(first1, last1, first2, last2, out, comp)], the loop of
    the standard's reference implementation: an element of the first range
    is written when it is below the head of the second; the head of the
    second is dropped when it is below; both advance otherwise; the rest of
    the first range is copied when the second is exhausted. *)
Fixpoint std_set_difference (A : Type) (comp : A -> A -> bool) (r1 : list A)
  : list A -> list A :=
  match r1 with
  | [] => fun _ => []
  | x :: t1 =>
      fix against (r2 : list A) : list A :=
        match r2 with
        | [] => x :: t1
        | y :: t2 =>
            if comp x y then x :: std_set_difference comp t1 r2
            else if comp y x then against t2
            else std_set_difference comp t1 t2
        end
  end.

(** *** The algorithms of the usual standard libraries *)

Module Impl.

Section Sorting.
Variable A : Type.
Variable comp : A -> A -> bool.

(** Insertion sort, what [std::sort] runs on the short ranges of this file:
    an element moves left past the elements it is below. *)
Fixpoint insert (x : A) (l : list A) : list A :=
  match l with
  | [] => [x]
  | y :: t => if comp y x then y :: insert x t else x :: y :: t
  end.

Definition insertion_sort (l : list A) : list A := fold_right insert [] l.

End Sorting.

Section Partition.
Variable A : Type.
Variable pred : A -> bool.

Fixpoint take_while (f : A -> bool) (l : list A) : list A :=
  match l with
  | x :: t => if f x then x :: take_while f t else []
  | [] => []
  end.

Fixpoint drop_while (f : A -> bool) (l : list A) : list A :=
  match l with
  | x :: t => if f x then drop_while f t else l
  | [] => []
  end.

(** [std::partition] on bidirectional iterators: [first] runs forward over
    the elements that satisfy [pred], [last] runs backward over those that
    do not, the two elements they stop at are swapped, and the scan goes on
    between them.  The result is the rearranged range with the offset of
    the partition point. *)
Fixpoint partition_loop (fuel : nat) (l : list A) : list A * nat :=
  match fuel with
  | 0 => (l, 0)
  | S fuel' =>
      match l with
      | [] => ([], 0)
      | x :: t =>
          if pred x then
            let r := partition_loop fuel' t in (x :: fst r, S (snd r))
          else
            let back := rev t in
            match drop_while (fun y => negb (pred y)) back with
            | [] => (x :: t, 0)
            | y :: mid =>
                let r := partition_loop fuel' (rev mid) in
                (y :: fst r ++ x :: rev (take_while (fun y => negb (pred y)) back),
                 S (snd r))
            end
      end
  end.

Definition partition (l : list A) : list A * nat :=
  partition_loop (List.length l) l.

(** The four guarantees of [std::partition], said of a result [r]. *)
Definition partitioned (l : list A) (r : list A * nat) : Prop :=
  Permutation l (fst r)
  /\ snd r <= List.length (fst r)
  /\ forallb pred (firstn (snd r) (fst r)) = true
  /\ forallb (fun x => negb (pred x)) (skipn (snd r) (fst r)) = true.

End Partition.

End Impl.

(** ** The set reconciler *)

Section Reconciler.
Context {SA : StdAlgorithms}.

(** [FindMissingStrings(vec1, vec2)]: both vectors are taken by non-const
    reference and sorted in place, so the model returns, next to
    [missingStrings], what the call leaves in [vec1] and [vec2].  The two
    sorts use [stl::less_stricmp]; [std::set_difference] is called without a
    comparator and so compares with [operator<]. *)
Definition FindMissingStrings (vec1 vec2 : list string)
  : list string * (list string * list string) :=
  let vec2 := std_sort CryString.less_stricmp vec2 in
  let vec1 := std_sort CryString.less_stricmp vec1 in
  let missingStrings := std_set_difference CryString.less vec1 vec2 in
  (missingStrings, (vec1, vec2)).

End Reconciler.

(** ** The outside world *)

(** A [std::shared_ptr<IFilesGroupProvider>], a [CAsset*] and an
    [IObjectLayer*] are the identity of the object pointed to: two equal
    pointers in a vector are the same object. *)
Definition GroupPtr := nat.
Definition AssetPtr := nat.
Definition LayerPtr := nat.

(** A directory as [QDir::entryList] shows it: the names of its [*.lyr] files
    and its sub-directories (without [.] and [..]), each with its content. *)
Inductive FsDir : Type :=
| Dir (layers : list string) (folders : list (string * FsDir)).

(** The collaborators the file reaches through interfaces and singletons
    declared elsewhere.  [World] is all the state outside the synchronizer:
    the file group objects, the status cache, the disk, the layer manager. *)
Class Collaborators : Type := {
  World : Type;
  CVersionControlResult : Type;
  (* IFilesGroupProvider *)
  IFilesGroupProvider_GetFiles : World -> GroupPtr -> list string;
  IFilesGroupProvider_GetMainFile : World -> GroupPtr -> string;
  IFilesGroupProvider_Update : GroupPtr -> World -> World;
  (* CAssetsVCSStatusProvider and CVersionControlFileStatus *)
  StatusProvider_refresh : list GroupPtr -> list string -> World -> World;
  StatusProvider_status : World -> GroupPtr -> Z;
  eState_UpdatedRemotely : Z;
  eState_DeletedRemotely : Z;
  (* CVersionControl *)
  VersionControl_pull : list string -> list string -> World -> World;
  VersionControl_result : list string -> list string -> World -> CVersionControlResult;
  (* CAssetFilesProvider *)
  ToFileGroups_assets : World -> list AssetPtr -> list GroupPtr;
  ToFileGroups_layers : World -> list LayerPtr -> list GroupPtr;
  (* QDir and PathUtil *)
  QDir_open : World -> string -> FsDir;
  PathUtil_Make : string -> string -> string;
  PathUtil_GetGameFolder : string;
  PathUtil_ToGamePath : string -> string;
  PathUtil_GetGameProjectAssetsRelativePath : string;
  (* IObjectLayerManager and IObjectLayer *)
  LayerManager_ImportLayerFromFile : string -> World -> World * LayerPtr;
  Layer_SetModified : LayerPtr -> bool -> World -> World
}.

(** The same collaborators with another answer to every pull. *)
Definition with_result (C : Collaborators) (R : Type)
  (result : list string -> list string -> @World C -> R) : Collaborators :=
  {| World := @World C;
     CVersionControlResult := R;
     IFilesGroupProvider_GetFiles := @IFilesGroupProvider_GetFiles C;
     IFilesGroupProvider_GetMainFile := @IFilesGroupProvider_GetMainFile C;
     IFilesGroupProvider_Update := @IFilesGroupProvider_Update C;
     StatusProvider_refresh := @StatusProvider_refresh C;
     StatusProvider_status := @StatusProvider_status C;
     eState_UpdatedRemotely := @eState_UpdatedRemotely C;
     eState_DeletedRemotely := @eState_DeletedRemotely C;
     VersionControl_pull := @VersionControl_pull C;
     VersionControl_result := result;
     ToFileGroups_assets := @ToFileGroups_assets C;
     ToFileGroups_layers := @ToFileGroups_layers C;
     QDir_open := @QDir_open C;
     PathUtil_Make := @PathUtil_Make C;
     PathUtil_GetGameFolder := @PathUtil_GetGameFolder C;
     PathUtil_ToGamePath := @PathUtil_ToGamePath C;
     PathUtil_GetGameProjectAssetsRelativePath :=
       @PathUtil_GetGameProjectAssetsRelativePath C;
     LayerManager_ImportLayerFromFile := @LayerManager_ImportLayerFromFile C;
     Layer_SetModified := @Layer_SetModified C |}.

(** The calls the synchronizer makes, in the order it makes them. *)
Inductive Event : Type :=
| EvUpdateStatus (fileGroups : list GroupPtr) (folders : list string)
| EvGetLatest (files folders : list string)
| EvUpdate (pFileGroup : GroupPtr)
| EvCryLog (missingFile : string)
| EvImportLayerFromFile (path : string)
| EvSetModified (pLayer : LayerPtr) (modified : bool)
| EvCallback
| EvBadFunctionCall.

Definition is_callback (e : Event) : bool :=
  match e with EvCallback => true | _ => false end.

Definition is_pull (e : Event) : bool :=
  match e with EvGetLatest _ _ => true | _ => false end.

Definition is_bad_call (e : Event) : bool :=
  match e with EvBadFunctionCall => true | _ => false end.

Definition is_update (e : Event) : bool :=
  match e with EvUpdate _ => true | _ => false end.

Definition is_layer_call (e : Event) : bool :=
  match e with
  | EvCryLog _ | EvImportLayerFromFile _ | EvSetModified _ _ => true
  | _ => false
  end.

(** The calls into the collaborators: every event but the caller's
    callback and the call of an empty [std::function]. *)
Definition collab_event (e : Event) : bool :=
  match e with
  | EvCallback | EvBadFunctionCall => false
  | _ => true
  end.

(** The state of a run: the outside world and the calls made so far. *)
Record State (W : Type) : Type := { world : W; log : list Event }.

Section Synchronizer.
Context {SA : StdAlgorithms} {C : Collaborators}.

(** A procedure returning [void]: the body of a [std::function<void()>]. *)
Definition Proc : Type := State World -> State World.

(** A [std::function<void()>]; [None] is the empty one ([nullptr]). *)
Definition std_function : Type := option Proc.

Definition skip : Proc := fun s => s.
Definition seq (a b : Proc) : Proc := fun s => b (a s).
Definition emit (e : Event) : Proc :=
  fun s => {| world := world s; log := log s ++ [e] |}.
Definition effect (f : World -> World) : Proc :=
  fun s => {| world := f (world s); log := log s |}.

(** Calling a [std::function]: the empty one throws [std::bad_function_call]. *)
Definition call (f : std_function) : Proc :=
  match f with
  | Some body => body
  | None => emit EvBadFunctionCall
  end.

(** The caller's completion callback, as the log sees it. *)
Definition user_callback : Proc := emit EvCallback.

Definition callbacks (s : State World) : nat := List.length (filter is_callback (log s)).
Definition pulls (s : State World) : nat := List.length (filter is_pull (log s)).
Definition bad_calls (s : State World) : nat := List.length (filter is_bad_call (log s)).

(** *** Asynchronous collaborators *)

(** Modelled from the spec: [CAssetsVCSStatusProvider::UpdateStatus] is
    declared outside this file; "pull and status results are treated as
    always eventually complete", so it refreshes the cached status and
    then runs its completion handler, once. *)
Definition CAssetsVCSStatusProvider_UpdateStatus
  (fileGroups : list GroupPtr) (folders : list string) (callback : Proc) : Proc :=
  seq (emit (EvUpdateStatus fileGroups folders))
      (seq (effect (StatusProvider_refresh fileGroups folders)) callback).

(** Modelled from the spec: [CVersionControl::GetLatest] is declared
    outside this file; for the same reason it pulls and then runs its
    completion handler, once, on the result of the pull.  The two flags
    the file always passes as [false] are left out. *)
Definition CVersionControl_GetLatest (files folders : list string)
  (callback : CVersionControlResult -> Proc) : Proc :=
  fun s =>
    let s1 := emit (EvGetLatest files folders) s in
    let result := VersionControl_result files folders (world s1) in
    callback result (effect (VersionControl_pull files folders) s1).

(** Modelled from the spec: [CAssetsVCSStatusProvider::HasStatus] is
    declared outside this file; it is a "synchronous read of cached status"
    that tells whether the group's flags include one of the mask. *)
Definition HasStatus (w : World) (pFileGroup : GroupPtr) (mask : Z) : bool :=
  negb (Z.land (StatusProvider_status w pFileGroup) mask =? 0)%Z.

Definition pFileGroup_Update (pFileGroup : GroupPtr) : Proc :=
  seq (emit (EvUpdate pFileGroup)) (effect (IFilesGroupProvider_Update pFileGroup)).

(** *** Group collectors *)

(** [GetFiles(false)] of every group, appended in the order of the vector. *)
Definition GetAllFiles (w : World) (fileGroups : list GroupPtr) : list string :=
  fold_left (fun result pFileGroup => result ++ IFilesGroupProvider_GetFiles w pFileGroup)
    fileGroups [].

Definition GetAllMainFiles (w : World) (fileGroups : list GroupPtr) : list string :=
  map (IFilesGroupProvider_GetMainFile w) fileGroups.

(** *** Layer files on disk *)

Definition path_join (dir name : string) : string :=
  (dir ++ String "/" name)%string.

(** The [*.lyr] files of [dir] are appended with the path of [dir] in
    front, then its sub-directories are visited in the order listed. *)
Fixpoint AddLayerFilesInFolderToVec (path : string) (dir : FsDir)
  (layersFiles : list string) : list string :=
  match dir with
  | Dir layers folders =>
      let layersFiles := layersFiles ++ map (path_join path) layers in
      (fix subfolders (fs : list (string * FsDir)) (acc : list string) : list string :=
         match fs with
         | [] => acc
         | (folder, sub) :: rest =>
             subfolders rest (AddLayerFilesInFolderToVec (path_join path folder) sub acc)
         end) folders layersFiles
  end.

Definition GetLayersFilesInFolders (w : World) (folders : list string) : list string :=
  let layersFiles :=
    fold_left (fun layersFiles folder =>
                 let root := PathUtil_Make PathUtil_GetGameFolder folder in
                 AddLayerFilesInFolderToVec root (QDir_open w root) layersFiles)
      folders [] in
  map PathUtil_ToGamePath layersFiles.

(** *** The pipeline *)

Definition is_empty (A : Type) (v : list A) : bool :=
  match v with [] => true | _ => false end.

(** [v.erase(v.begin() + first, v.end())]. *)
Definition erase_from (A : Type) (first : nat) (v : list A) : list A := firstn first v.

(** [newFiles] is passed by value and [originalFiles] is the copy the
    caller's lambda holds; neither is read after [FindMissingStrings] has
    sorted them, so what the call leaves in them is dropped. *)
Definition CompareFilesAndDownloadMissing (newFiles originalFiles : list string)
  (callback : std_function) : Proc :=
  let missingFiles := fst (FindMissingStrings newFiles originalFiles) in
  if negb (is_empty missingFiles) then
    CVersionControl_GetLatest missingFiles [] (fun _ => call callback)
  else
    call callback.

(** Lines 121-129: the groups not changed remotely are moved to the end of
    the vector and erased. *)
Definition relevance_filter (w : World) (pFileGroups : list GroupPtr) : list GroupPtr :=
  let changed := fun pFileGroup =>
    HasStatus w pFileGroup (Z.lor eState_UpdatedRemotely eState_DeletedRemotely) in
  let r := std_partition changed pFileGroups in
  let firstNotChangedRemotely := snd r in
  if negb (firstNotChangedRemotely =? List.length (fst r)) then
    erase_from firstNotChangedRemotely (fst r)
  else fst r.

(** Lines 146-150: the remotely deleted groups are moved to the end of the
    vector; the result is the vector and [firstDeletedIndex]. *)
Definition deletion_partition (w : World) (pFileGroups : list GroupPtr)
  : list GroupPtr * nat :=
  std_partition (fun pFileGroup => negb (HasStatus w pFileGroup eState_DeletedRemotely))
    pFileGroups.

(** Lines 158-167: every group is updated, then the deleted ones are erased. *)
Definition update_all (pFileGroups : list GroupPtr) : Proc :=
  fold_right (fun pFileGroup rest => seq (pFileGroup_Update pFileGroup) rest) skip pFileGroups.

Definition erase_deleted (firstDeletedIndex : nat) (pFileGroups : list GroupPtr)
  : list GroupPtr :=
  if negb (firstDeletedIndex =? List.length pFileGroups) then
    erase_from firstDeletedIndex pFileGroups
  else pFileGroups.

(** The completion handler of the broad pull; [result] is not used. *)
Definition onGetLatest (originalFiles : list string) (pFileGroups : list GroupPtr)
  (firstDeletedIndex : nat) (callback : std_function)
  (result : CVersionControlResult) : Proc :=
  seq (update_all pFileGroups)
      (fun s =>
         let pFileGroups := erase_deleted firstDeletedIndex pFileGroups in
         if is_empty pFileGroups then call callback s
         else CompareFilesAndDownloadMissing (GetAllFiles (world s) pFileGroups)
                originalFiles callback s).

(** [Sync(fileGroups, folders, callback)], lines 104-181.  The vector behind
    [pFileGroups] is only touched by the two lambdas, one after the other,
    so its value is handed from one to the next. *)
Definition Sync (fileGroups : list GroupPtr) (folders : list string)
  (callback : std_function) : Proc :=
  let callback := match callback with None => Some skip | Some _ => callback end in
  CAssetsVCSStatusProvider_UpdateStatus fileGroups [] (fun s =>
    let pFileGroups := relevance_filter (world s) fileGroups in
    if is_empty pFileGroups then
      if is_empty folders then call callback s
      else CVersionControl_GetLatest [] folders (fun result => call callback) s
    else
      let r := deletion_partition (world s) pFileGroups in
      let pFileGroups := fst r in
      let firstDeletedIndex := snd r in
      let originalFiles := GetAllFiles (world s) pFileGroups in
      CVersionControl_GetLatest originalFiles folders
        (onGetLatest originalFiles pFileGroups firstDeletedIndex callback) s).

(** The overloads for a list of assets and for one file group. *)
Definition Sync_assets (assets : list AssetPtr) (folders : list string)
  (callback : std_function) : Proc :=
  fun s => Sync (ToFileGroups_assets (world s) assets) folders callback s.

Definition Sync_fileGroup (pFileGroup : GroupPtr) (callback : std_function) : Proc :=
  Sync [pFileGroup] [] callback.

(** Lines 204-209: every missing layer file is logged, imported, and the
    layer it becomes is marked unmodified. *)
Fixpoint import_layers (missingFiles : list string) : Proc :=
  match missingFiles with
  | [] => skip
  | missingFile :: rest =>
      seq (emit (EvCryLog missingFile))
        (seq (fun s =>
                let path := PathUtil_Make PathUtil_GetGameProjectAssetsRelativePath
                              missingFile in
                let r := LayerManager_ImportLayerFromFile path (world s) in
                let pLayer := snd r in
                seq (emit (EvImportLayerFromFile path))
                  (seq (effect (fun _ => fst r))
                     (seq (emit (EvSetModified pLayer false))
                        (effect (Layer_SetModified pLayer false)))) s)
             (import_layers rest))
  end.

(** The completion handler of the layers overload; it tests [callback]
    before the call. *)
Definition onSync (originalFiles folders : list string) (callback : std_function) : Proc :=
  fun s =>
    let newFiles := GetLayersFilesInFolders (world s) folders in
    let missingFiles := fst (FindMissingStrings newFiles originalFiles) in
    seq (import_layers missingFiles)
        (match callback with Some _ => call callback | None => skip end) s.

(** The overload for layers, lines 194-216. *)
Definition Sync_layers (layers : list LayerPtr) (folders : list string)
  (callback : std_function) : Proc :=
  fun s =>
    let originalFiles := GetLayersFilesInFolders (world s) folders in
    Sync (ToFileGroups_layers (world s) layers) folders
      (Some (onSync originalFiles folders callback)) s.

(** *** Vocabulary of the statements *)

(** A procedure is quiet when all it adds to the log is calls into the
    collaborators. *)
Definition quiet (p : Proc) : Prop :=
  forall s, exists evs, log (p s) = log s ++ evs /\ forallb collab_event evs = true.

(** The two predicates [Sync] partitions on. *)
Definition changed_remotely (w : World) (pFileGroup : GroupPtr) : bool :=
  HasStatus w pFileGroup (Z.lor eState_UpdatedRemotely eState_DeletedRemotely).

Definition deleted_remotely (w : World) (pFileGroup : GroupPtr) : bool :=
  HasStatus w pFileGroup eState_DeletedRemotely.

(** What the loop of lines 204-209 logs from the world [w] on, one file
    after the other: the message, the import, and [SetModified(false)] on
    the layer the import returned. *)
Fixpoint import_events (w : World) (missingFiles : list string) : list Event :=
  match missingFiles with
  | [] => []
  | missingFile :: rest =>
      let path := PathUtil_Make PathUtil_GetGameProjectAssetsRelativePath missingFile in
      let r := LayerManager_ImportLayerFromFile path w in
      EvCryLog missingFile :: EvImportLayerFromFile path :: EvSetModified (snd r) false
        :: import_events (Layer_SetModified (snd r) false (fst r)) rest
  end.

(** The loop of [AddLayerFilesInFolderToVec] over the sub-directories, on
    its own. *)
Definition subfolders_of (path : string) : list (string * FsDir) -> list string -> list string :=
  fix subfolders (fs : list (string * FsDir)) (acc : list string) : list string :=
    match fs with
    | [] => acc
    | (folder, sub) :: rest =>
        subfolders rest (AddLayerFilesInFolderToVec (path_join path folder) sub acc)
    end.


End Synchronizer.

(** ** A scripted world

    Collaborators that follow a script: what each group lists before and
    after its [Update()], the cached status of each group, and the layer
    directories before and after the first pull.  The world counts the
    pulls done and remembers which groups were updated and which layers
    were imported. *)

Module Sim.

Local Open Scope string_scope.

Record Scenario : Type := {
  sc_status : GroupPtr -> Z;
  sc_files : GroupPtr -> list string;
  sc_files_updated : GroupPtr -> list string;
  sc_disk : string -> FsDir;
  sc_disk_pulled : string -> FsDir
}.

Record SimWorld : Type := {
  pulls_done : nat;
  updated : list GroupPtr;
  imported : list string;
  unmodified : list LayerPtr
}.

Definition start : SimWorld :=
  {| pulls_done := 0; updated := []; imported := []; unmodified := [] |}.

Definition strip_prefix (prefix s : string) : string :=
  if String.prefix prefix s
  then substring (String.length prefix) (String.length s - String.length prefix) s
  else s.

Definition collaborators (sc : Scenario) : Collaborators :=
  {| World := SimWorld;
     CVersionControlResult := bool;
     IFilesGroupProvider_GetFiles := fun w g =>
       if existsb (Nat.eqb g) (updated w) then sc_files_updated sc g else sc_files sc g;
     IFilesGroupProvider_GetMainFile := fun w g => hd "" (sc_files sc g);
     IFilesGroupProvider_Update := fun g w =>
       {| pulls_done := pulls_done w; updated := g :: updated w;
          imported := imported w; unmodified := unmodified w |};
     StatusProvider_refresh := fun _ _ w => w;
     StatusProvider_status := fun _ g => sc_status sc g;
     eState_UpdatedRemotely := 16;
     eState_DeletedRemotely := 64;
     VersionControl_pull := fun _ _ w =>
       {| pulls_done := S (pulls_done w); updated := updated w;
          imported := imported w; unmodified := unmodified w |};
     VersionControl_result := fun _ _ _ => true;
     ToFileGroups_assets := fun _ assets => assets;
     ToFileGroups_layers := fun _ layers => layers;
     QDir_open := fun w path =>
       match pulls_done w with 0 => sc_disk sc path | _ => sc_disk_pulled sc path end;
     PathUtil_Make := path_join;
     PathUtil_GetGameFolder := "Assets";
     PathUtil_ToGamePath := strip_prefix "Assets/";
     PathUtil_GetGameProjectAssetsRelativePath := "Assets";
     LayerManager_ImportLayerFromFile := fun path w =>
       ({| pulls_done := pulls_done w; updated := updated w;
           imported := imported w ++ [path]; unmodified := unmodified w |},
        List.length (imported w));
     Layer_SetModified := fun pLayer modified w =>
       {| pulls_done := pulls_done w; updated := updated w; imported := imported w;
          unmodified := if modified then remove Nat.eq_dec pLayer (unmodified w)
                        else pLayer :: unmodified w |} |}.

Definition init (sc : Scenario) : State (@World (collaborators sc)) :=
  {| world := start : @World (collaborators sc); log := [] |}.

Definition no_dir : string -> FsDir := fun _ => Dir [] [].

(** One group, updated remotely, whose content lists a material once pulled. *)
Definition discovery : Scenario :=
  {| sc_status := fun _ => 16%Z;
     sc_files := fun _ => ["a.cgf"];
     sc_files_updated := fun _ => ["a.cgf"; "a.cgf.mtl"];
     sc_disk := no_dir; sc_disk_pulled := no_dir |}.

(** The same with a capital in the name of the main file. *)
Definition discovery_capital : Scenario :=
  {| sc_status := fun _ => 16%Z;
     sc_files := fun _ => ["Objects/Tree.cgf"];
     sc_files_updated := fun _ => ["Objects/Tree.cgf"; "Objects/bark.mtl"];
     sc_disk := no_dir; sc_disk_pulled := no_dir |}.

(** Group 0 is unchanged, groups 1 and 2 are updated remotely, group 3 is
    deleted remotely; they list [a.cgf], [b.cgf], [c.cgf] and [d.cgf]. *)
Definition mixed : Scenario :=
  {| sc_status := fun g =>
       match g with 0 => 0%Z | 3 => 64%Z | _ => 16%Z end;
     sc_files := fun g =>
       match g with 0 => ["a.cgf"] | 1 => ["b.cgf"] | 2 => ["c.cgf"] | _ => ["d.cgf"] end;
     sc_files_updated := fun g =>
       match g with 0 => ["a.cgf"] | 1 => ["b.cgf"] | 2 => ["c.cgf"] | _ => [] end;
     sc_disk := no_dir; sc_disk_pulled := no_dir |}.

(** Group 0 is deleted remotely and lists [a.cgf]; group 1 is updated
    remotely and lists [B.cgf], before and after the pull. *)
Definition deletion_capital : Scenario :=
  {| sc_status := fun g => match g with 0 => 64%Z | _ => 16%Z end;
     sc_files := fun g => match g with 0 => ["a.cgf"] | _ => ["B.cgf"] end;
     sc_files_updated := fun g => match g with 0 => [] | _ => ["B.cgf"] end;
     sc_disk := no_dir; sc_disk_pulled := no_dir |}.

(** One group, deleted remotely. *)
Definition deletion : Scenario :=
  {| sc_status := fun _ => 64%Z;
     sc_files := fun _ => ["b.cgf"];
     sc_files_updated := fun _ => [];
     sc_disk := no_dir; sc_disk_pulled := no_dir |}.

(** No group needs a sync. *)
Definition unchanged : Scenario :=
  {| sc_status := fun _ => 0%Z;
     sc_files := fun _ => ["a.cgf"];
     sc_files_updated := fun _ => ["a.cgf"];
     sc_disk := no_dir; sc_disk_pulled := no_dir |}.

(** A level whose [Layers] folder holds [Main.lyr]; the pull adds [ai.lyr]. *)
Definition layers_added : Scenario :=
  {| sc_status := fun _ => 0%Z;
     sc_files := fun _ => [];
     sc_files_updated := fun _ => [];
     sc_disk := fun _ => Dir [] [("Layers", Dir ["Main.lyr"] [])];
     sc_disk_pulled := fun _ => Dir [] [("Layers", Dir ["ai.lyr"; "Main.lyr"] [])] |}.

(** The same level with lower-case names only. *)
Definition layers_added_lower : Scenario :=
  {| sc_status := fun _ => 0%Z;
     sc_files := fun _ => [];
     sc_files_updated := fun _ => [];
     sc_disk := fun _ => Dir [] [("layers", Dir ["main.lyr"] [])];
     sc_disk_pulled := fun _ => Dir [] [("layers", Dir ["ai.lyr"; "main.lyr"] [])] |}.

End Sim.

(** * Proofs *)

(** ** The usual algorithms meet the standard *)

Module ImplFacts.
Import Impl.

Section Sorting.
Variable A : Type.
Variable comp : A -> A -> bool.

Lemma insert_perm (x : A) (l : list A) : Permutation (x :: l) (insert comp x l).
Proof.
  induction l as [|y t IH]; simpl.
  - apply Permutation_refl.
  - destruct (comp y x).
    + eapply perm_trans; [apply perm_swap|]. now apply perm_skip.
    + apply Permutation_refl.
Qed.

Lemma insertion_sort_perm (l : list A) : Permutation l (insertion_sort comp l).
Proof.
  induction l as [|x t IH]; simpl.
  - constructor.
  - eapply perm_trans; [apply perm_skip, IH|]. apply insert_perm.
Qed.

Hypothesis comp_swo : StrictWeakOrder comp.

Lemma swo_asym (a b : A) : comp a b = true -> comp b a = false.
Proof.
  intros Hab. destruct (comp b a) eqn:Hba; [|reflexivity].
  rewrite <- (swo_irrefl comp_swo a). symmetry.
  exact (swo_trans comp_swo _ _ _ Hab Hba).
Qed.

Lemma insert_sorted (x : A) (l : list A) :
  sorted_by comp l -> sorted_by comp (insert comp x l).
Proof.
  unfold sorted_by. induction l as [|y t IH]; simpl; intros Hs.
  - repeat constructor.
  - inversion Hs as [|? ? Ht Hy]; subst.
    destruct (comp y x) eqn:Hyx.
    + constructor; [now apply IH|].
      rewrite Forall_forall in *. intros z Hz.
      apply (Permutation_in _ (Permutation_sym (insert_perm x t))) in Hz.
      destruct Hz as [<-|Hz]; [now apply swo_asym | now apply Hy].
    + constructor; [assumption|].
      constructor; [assumption|].
      rewrite Forall_forall in *. intros z Hz.
      exact (swo_negtrans comp_swo _ _ _ (Hy z Hz) Hyx).
Qed.

Lemma insertion_sort_sorted (l : list A) : sorted_by comp (insertion_sort comp l).
Proof.
  induction l as [|x t IH]; simpl.
  - constructor.
  - now apply insert_sorted.
Qed.

End Sorting.

Section Partition.
Variable A : Type.
Variable pred : A -> bool.

Lemma take_drop_while (f : A -> bool) (l : list A) :
  take_while f l ++ drop_while f l = l.
Proof.
  induction l as [|x t IH]; simpl; [reflexivity|].
  destruct (f x); simpl; [now rewrite IH | reflexivity].
Qed.

Lemma take_while_all (f : A -> bool) (l : list A) : forallb f (take_while f l) = true.
Proof.
  induction l as [|x t IH]; simpl; [reflexivity|].
  destruct (f x) eqn:Hx; simpl; [now rewrite Hx | reflexivity].
Qed.

Lemma drop_while_head (f : A -> bool) (l : list A) (y : A) (rest : list A) :
  drop_while f l = y :: rest -> f y = false.
Proof.
  induction l as [|x t IH]; simpl; [discriminate|].
  destruct (f x) eqn:Hx; [exact IH|].
  intros [= <- <-]. exact Hx.
Qed.

Lemma drop_while_nil (f : A -> bool) (l : list A) :
  drop_while f l = [] -> forallb f l = true.
Proof.
  induction l as [|x t IH]; simpl; [reflexivity|].
  destruct (f x); [exact IH | discriminate].
Qed.

Lemma forallb_rev (f : A -> bool) (l : list A) : forallb f (rev l) = forallb f l.
Proof.
  induction l as [|x t IH]; simpl; [reflexivity|].
  rewrite forallb_app, IH. simpl. rewrite andb_true_r. apply andb_comm.
Qed.

Lemma partition_loop_partitioned (fuel : nat) :
  forall l, List.length l <= fuel -> partitioned pred l (partition_loop pred fuel l).
Proof.
  induction fuel as [|fuel IH]; intros l Hlen.
  - destruct l; [|simpl in Hlen; lia]. repeat split; simpl; auto.
  - destruct l as [|x t]; [repeat split; simpl; auto|].
    simpl in Hlen. cbn [partition_loop].
    destruct (pred x) eqn:Hx.
    + destruct (IH t ltac:(lia)) as (Hp & Hle & Hf & Hb).
      repeat split; cbn [fst snd]; simpl.
      * now apply perm_skip.
      * lia.
      * now rewrite Hx, Hf.
      * exact Hb.
    + set (f := fun y => negb (pred y)).
      pose proof (take_drop_while f (rev t)) as Hsplit.
      destruct (drop_while f (rev t)) as [|y mid] eqn:Hdrop.
      * repeat split; cbn [fst snd]; simpl; auto using Permutation_refl; try lia.
        rewrite Hx. simpl.
        apply drop_while_nil in Hdrop. now rewrite forallb_rev in Hdrop.
      * assert (Ht : t = rev mid ++ y :: rev (take_while f (rev t))).
        { apply (f_equal (@rev A)) in Hsplit.
          rewrite rev_involutive, rev_app_distr in Hsplit. simpl in Hsplit.
          rewrite <- app_assoc in Hsplit. simpl in Hsplit. now symmetry. }
        assert (Hmid : List.length (rev mid) <= fuel).
        { assert (Hl : List.length t = List.length (rev mid ++ y :: rev (take_while f (rev t))))
            by (f_equal; exact Ht).
          rewrite length_app in Hl. simpl in Hl. lia. }
        destruct (IH (rev mid) Hmid) as (Hp & Hle & Hf & Hb).
        set (r := partition_loop pred fuel (rev mid)) in *.
        set (tail := rev (take_while f (rev t))) in *.
        assert (Hy : pred y = true).
        { apply drop_while_head in Hdrop. unfold f in Hdrop.
          now destruct (pred y). }
        repeat split; cbn [fst snd].
        -- rewrite Ht at 1.
           apply Permutation_trans with (y :: x :: rev mid ++ tail).
           ++ apply Permutation_trans with (x :: y :: rev mid ++ tail);
                [apply perm_skip; symmetry; apply Permutation_middle | apply perm_swap].
           ++ apply perm_skip.
              apply Permutation_trans with (x :: fst r ++ tail);
                [apply perm_skip; now apply Permutation_app_tail
                | apply Permutation_middle].
        -- simpl. rewrite length_app. simpl. lia.
        -- simpl. rewrite Hy. simpl.
           rewrite firstn_app.
           replace (snd r - List.length (fst r)) with 0 by lia.
           simpl. now rewrite app_nil_r.
        -- simpl. rewrite skipn_app.
           replace (snd r - List.length (fst r)) with 0 by lia.
           simpl. rewrite forallb_app, Hb. simpl. rewrite Hx. simpl.
           unfold tail. rewrite forallb_rev. apply take_while_all.
Qed.

Lemma partition_partitioned (l : list A) : partitioned pred l (partition pred l).
Proof. apply partition_loop_partitioned. apply le_n. Qed.

End Partition.

End ImplFacts.

(** Insertion sort and the two-pointer partition are standard algorithms. *)
#[export] Instance usual_algorithms : StdAlgorithms :=
  {| std_sort := Impl.insertion_sort;
     std_sort_perm := ImplFacts.insertion_sort_perm;
     std_sort_sorted := fun A comp l H => ImplFacts.insertion_sort_sorted H l;
     std_partition := Impl.partition;
     std_partition_perm := fun A p l => proj1 (ImplFacts.partition_partitioned p l);
     std_partition_le := fun A p l => proj1 (proj2 (ImplFacts.partition_partitioned p l));
     std_partition_front := fun A p l =>
       proj1 (proj2 (proj2 (ImplFacts.partition_partitioned p l)));
     std_partition_back := fun A p l =>
       proj2 (proj2 (proj2 (ImplFacts.partition_partitioned p l))) |}.

(** ** The two orderings of strings *)

Module CryStringFacts.
Import CryString.

Lemma ltb_lt (a b : string) : String.ltb a b = true <-> String_as_OT.lt a b.
Proof.
  unfold String.ltb. rewrite <- String_as_OT.cmp_lt. unfold String_as_OT.cmp.
  destruct (String.compare a b); split; congruence.
Qed.

Lemma ltb_irrefl (a : string) : String.ltb a a = false.
Proof.
  destruct (String.ltb a a) eqn:H; [|reflexivity].
  apply ltb_lt in H. apply String_as_OT.lt_not_eq in H.
  exfalso. apply H. reflexivity.
Qed.

Lemma ltb_trans (a b c : string) :
  String.ltb a b = true -> String.ltb b c = true -> String.ltb a c = true.
Proof.
  rewrite !ltb_lt. apply String_as_OT.lt_trans.
Qed.

Lemma ltb_total (a b : string) :
  String.ltb a b = true \/ a = b \/ String.ltb b a = true.
Proof.
  unfold String.ltb. rewrite (String.compare_antisym b a).
  destruct (String.compare a b) eqn:H; simpl; auto.
  right; left. now apply String.compare_eq_iff.
Qed.

Lemma ltb_negtrans (a b c : string) :
  String.ltb a b = false -> String.ltb b c = false -> String.ltb a c = false.
Proof.
  intros Hab Hbc. destruct (String.ltb a c) eqn:Hac; [|reflexivity].
  destruct (ltb_total a b) as [H|[->|H]]; try congruence.
  destruct (ltb_total b c) as [H'|[->|H']]; try congruence.
  pose proof (ltb_trans _ _ _ Hac H') as Hab'. congruence.
Qed.

Lemma less_swo : StrictWeakOrder less.
Proof.
  split; unfold less;
    [apply ltb_irrefl | apply ltb_trans | apply ltb_negtrans].
Qed.

(** [stl::less_stricmp] is a comparator [std::sort] accepts. *)
Lemma less_stricmp_swo : StrictWeakOrder less_stricmp.
Proof.
  split; unfold less_stricmp; intros.
  - apply ltb_irrefl.
  - eapply ltb_trans; eassumption.
  - eapply ltb_negtrans; eassumption.
Qed.

End CryStringFacts.

(** ** The set reconciler *)

Section ReconcilerFacts.
Context {SA : StdAlgorithms}.

Lemma std_set_difference_nil_r (A : Type) (comp : A -> A -> bool) (r1 : list A) :
  std_set_difference comp r1 [] = r1.
Proof. destruct r1; reflexivity. Qed.

Lemma std_set_difference_diag (A : Type) (comp : A -> A -> bool) (r : list A) :
  (forall a, comp a a = false) -> std_set_difference comp r r = [].
Proof.
  intros Hirr. induction r as [|x t IH]; simpl; [reflexivity|].
  now rewrite Hirr.
Qed.

(** What the first range loses is never invented: every string written is
    one of the first range. *)
Lemma std_set_difference_incl (A : Type) (comp : A -> A -> bool) (r1 r2 : list A) :
  incl (std_set_difference comp r1 r2) r1.
Proof.
  revert r2. induction r1 as [|x t1 IH]; intros r2; [apply incl_nil_l|].
  induction r2 as [|y t2 IH2]; simpl; [apply incl_refl|].
  destruct (comp x y).
  - apply incl_cons; [now left | apply incl_tl, IH].
  - destruct (comp y x); [exact IH2 | apply incl_tl, IH].
Qed.

(** X1: [FindMissingStrings(A, A)] is empty. *)
Theorem FindMissingStrings_same (vec : list string) :
  fst (FindMissingStrings vec vec) = [].
Proof.
  unfold FindMissingStrings. cbn [fst].
  apply std_set_difference_diag. intros a. apply CryStringFacts.ltb_irrefl.
Qed.

(** X2: [FindMissingStrings(A, [])] is [A] as [std::sort] leaves it: the
    strings of [A], sorted for [stl::less_stricmp]. *)
Theorem FindMissingStrings_nil (vec : list string) :
  fst (FindMissingStrings vec []) = std_sort CryString.less_stricmp vec
  /\ Permutation vec (fst (FindMissingStrings vec []))
  /\ sorted_by CryString.less_stricmp (fst (FindMissingStrings vec [])).
Proof.
  assert (H : fst (FindMissingStrings vec []) = std_sort CryString.less_stricmp vec).
  { unfold FindMissingStrings. cbn [fst].
    pose proof (std_sort_perm CryString.less_stricmp (@nil string)) as Hp.
    apply Permutation_nil in Hp. rewrite Hp.
    apply std_set_difference_nil_r. }
  rewrite H. repeat split.
  - apply std_sort_perm.
  - apply std_sort_sorted, CryStringFacts.less_stricmp_swo.
Qed.

(** X6: every string reported missing is one of the first vector. *)
Theorem FindMissingStrings_incl (vec1 vec2 : list string) :
  incl (fst (FindMissingStrings vec1 vec2)) vec1.
Proof.
  unfold FindMissingStrings. cbn [fst]. intros x Hx.
  apply std_set_difference_incl in Hx.
  eapply Permutation_in; [apply Permutation_sym, std_sort_perm | exact Hx].
Qed.

(** On ranges sorted for a total order, [std::set_difference] removes from
    the first range one occurrence for each occurrence in the second. *)
Section SetDifference.
Variable A : Type.
Variable eq_dec : forall a b : A, {a = b} + {a <> b}.
Variable comp : A -> A -> bool.
Hypothesis comp_irrefl : forall a, comp a a = false.
Hypothesis comp_total : forall a b, comp a b = false -> comp b a = false -> a = b.

Lemma sorted_above (x y : A) (l : list A) :
  comp x y = true -> sorted_by comp (y :: l) -> ~ In x (y :: l).
Proof.
  intros Hxy Hs [->|Hin].
  - rewrite comp_irrefl in Hxy. discriminate.
  - apply StronglySorted_inv in Hs. destruct Hs as [_ Hall].
    rewrite Forall_forall in Hall. specialize (Hall x Hin). simpl in Hall. congruence.
Qed.

Lemma std_set_difference_count (r1 r2 : list A) (x : A) :
  sorted_by comp r1 -> sorted_by comp r2 ->
  count_occ eq_dec (std_set_difference comp r1 r2) x
  = count_occ eq_dec r1 x - count_occ eq_dec r2 x.
Proof.
  revert r2. induction r1 as [|x1 t1 IH]; intros r2 Hs1 Hs2; [reflexivity|].
  pose proof (proj1 (StronglySorted_inv Hs1)) as Ht1.
  induction r2 as [|y t2 IH2].
  { rewrite std_set_difference_nil_r. change (count_occ eq_dec [] x) with 0. lia. }
  pose proof (proj1 (StronglySorted_inv Hs2)) as Ht2.
  cbn [std_set_difference].
  destruct (comp x1 y) eqn:Hxy.
  - change (count_occ eq_dec (x1 :: std_set_difference comp t1 (y :: t2)) x
            = count_occ eq_dec (x1 :: t1) x - count_occ eq_dec (y :: t2) x).
    destruct (eq_dec x1 x) as [->|Hne].
    + rewrite !count_occ_cons_eq by reflexivity. rewrite (IH _ Ht1 Hs2).
      pose proof (sorted_above Hxy Hs2) as Hnot.
      apply (count_occ_not_In eq_dec) in Hnot. lia.
    + rewrite !(count_occ_cons_neq eq_dec _ Hne). apply (IH _ Ht1 Hs2).
  - destruct (comp y x1) eqn:Hyx.
    + change (count_occ eq_dec (std_set_difference comp (x1 :: t1) t2) x
              = count_occ eq_dec (x1 :: t1) x - count_occ eq_dec (y :: t2) x).
      rewrite (IH2 Ht2).
      destruct (eq_dec y x) as [->|Hne].
      * pose proof (sorted_above Hyx Hs1) as Hnot.
        apply (count_occ_not_In eq_dec) in Hnot. lia.
      * rewrite (count_occ_cons_neq eq_dec _ Hne). reflexivity.
    + rewrite (IH _ Ht1 Ht2). rewrite (comp_total Hxy Hyx).
      destruct (eq_dec y x) as [->|Hne].
      * rewrite !count_occ_cons_eq by reflexivity. lia.
      * rewrite !(count_occ_cons_neq eq_dec _ Hne). reflexivity.
Qed.

End SetDifference.

Lemma less_trichotomy (a b : string) :
  CryString.less a b = false -> CryString.less b a = false -> a = b.
Proof.
  unfold CryString.less. intros Hab Hba.
  destruct (CryStringFacts.ltb_total a b) as [H|[H|H]]; congruence.
Qed.

Lemma sorted_lower_case (l : list string) :
  Forall CryString.lower_case l ->
  sorted_by CryString.less_stricmp l -> sorted_by CryString.less l.
Proof.
  unfold sorted_by. intros Hl Hs.
  induction Hs as [|a l Hs IH Hall]; [constructor|].
  apply Forall_cons_iff in Hl. destruct Hl as [Ha Hl].
  constructor; [now apply IH|].
  rewrite Forall_forall in *. intros b Hb. specialize (Hall b Hb). simpl in Hall.
  unfold CryString.less_stricmp in Hall.
  unfold CryString.lower_case in *. now rewrite Ha, (Hl b Hb) in Hall.
Qed.

(** X7: on paths without capitals [FindMissingStrings] is right: a path
    is reported as often as it occurs in the first vector beyond its
    occurrences in the second. *)
Theorem FindMissingStrings_lower_case (vec1 vec2 : list string) (x : string) :
  Forall CryString.lower_case vec1 -> Forall CryString.lower_case vec2 ->
  count_occ string_dec (fst (FindMissingStrings vec1 vec2)) x
  = count_occ string_dec vec1 x - count_occ string_dec vec2 x.
Proof.
  intros H1 H2. unfold FindMissingStrings. cbn [fst].
  rewrite (std_set_difference_count string_dec CryStringFacts.ltb_irrefl less_trichotomy).
  - f_equal; symmetry; apply Permutation_count_occ, std_sort_perm.
  - apply sorted_lower_case.
    + eapply Permutation_Forall; [apply std_sort_perm | exact H1].
    + apply std_sort_sorted, CryStringFacts.less_stricmp_swo.
  - apply sorted_lower_case.
    + eapply Permutation_Forall; [apply std_sort_perm | exact H2].
    + apply std_sort_sorted, CryStringFacts.less_stricmp_swo.
Qed.

(** Short ranges leave [std::sort] no choice. *)

Lemma std_sort_one (A : Type) (comp : A -> A -> bool) (a : A) :
  std_sort comp [a] = [a].
Proof. apply Permutation_length_1_inv, std_sort_perm. Qed.

Lemma std_sort_two (A : Type) (comp : A -> A -> bool) (a b : A) (l : list A) :
  StrictWeakOrder comp -> comp a b = true -> Permutation [a; b] l ->
  std_sort comp l = [a; b].
Proof.
  intros Hswo Hab Hl.
  pose proof (std_sort_sorted l Hswo) as Hs.
  pose proof (perm_trans Hl (std_sort_perm comp l)) as Hp.
  apply Permutation_length_2_inv in Hp. destruct Hp as [Hp|Hp]; [exact Hp|].
  unfold sorted_by in Hs. rewrite Hp in Hs.
  apply StronglySorted_inv in Hs. destruct Hs as [_ Hall].
  apply Forall_inv in Hall. congruence.
Qed.

End ReconcilerFacts.

(** Rewrites [std::sort] of the two strings [a] and [b], in either order. *)
Ltac sort_two a b :=
  repeat match goal with
  | |- context [std_sort CryString.less_stricmp ?l] =>
      rewrite (@std_sort_two _ _ CryString.less_stricmp a b l
                 CryStringFacts.less_stricmp_swo eq_refl
                 ltac:(first [apply Permutation_refl | apply perm_swap]))
  end.

Section ReconcilerClaims.
Context {SA : StdAlgorithms}.

(** C5, as the code has it: [FindMissingStrings] reorders the two vectors it
    is given and changes nothing else: after the call each holds the
    strings it held before, sorted for [stl::less_stricmp], and the result
    is the [std::set_difference] of the two sorted vectors. *)
Theorem FindMissingStrings_sorts_its_inputs (vec1 vec2 : list string) :
  let r := FindMissingStrings vec1 vec2 in
  Permutation vec1 (fst (snd r))
  /\ sorted_by CryString.less_stricmp (fst (snd r))
  /\ Permutation vec2 (snd (snd r))
  /\ sorted_by CryString.less_stricmp (snd (snd r))
  /\ fst r = std_set_difference CryString.less (fst (snd r)) (snd (snd r)).
Proof.
  unfold FindMissingStrings. cbn [fst snd].
  repeat split;
    try apply std_sort_perm;
    apply std_sort_sorted, CryStringFacts.less_stricmp_swo.
Qed.

(** C6, at the failing inputs, whatever [std::sort] does with equivalent
    strings: a path that is in the baseline, letter for letter, is reported
    missing when a lower-case name precedes it there, and a path that
    differs from the baseline's in case only is reported missing. *)
Theorem FindMissingStrings_compares_case :
  fst (FindMissingStrings ["B.cgf"] ["a.cgf"; "B.cgf"])%string = ["B.cgf"]%string
  /\ fst (FindMissingStrings ["A.cgf"] ["a.cgf"])%string = ["A.cgf"]%string.
Proof.
  unfold FindMissingStrings. cbn [fst]. rewrite !std_sort_one.
  sort_two "a.cgf"%string "B.cgf"%string.
  split; reflexivity.
Qed.

End ReconcilerClaims.

Local Open Scope string_scope.

(** C5, counterexample: called on [["b"; "a"]] the function leaves
    [["a"; "b"]] in its first argument. *)
Lemma FindMissingStrings_reorders_vec1 :
  fst (snd (FindMissingStrings ["b"; "a"] [])) = ["a"; "b"].
Proof. reflexivity. Qed.

(** The result depends on the order of the first input: with insertion
    sort, [a.cgf] before or after [A.cgf]. *)
Lemma FindMissingStrings_depends_on_order :
  fst (FindMissingStrings ["a.cgf"; "A.cgf"] ["A.cgf"]) = ["a.cgf"; "A.cgf"]
  /\ fst (FindMissingStrings ["A.cgf"; "a.cgf"] ["A.cgf"]) = ["a.cgf"].
Proof. split; reflexivity. Qed.

Local Close Scope string_scope.

(** ** Partitions *)

Section FilterFacts.
Variable A : Type.
Variable p : A -> bool.

Lemma Permutation_filter (l l' : list A) :
  Permutation l l' -> Permutation (filter p l) (filter p l').
Proof.
  induction 1 as [|x l l' _ IH|x y l|l l' l'' _ IH1 _ IH2]; simpl.
  - constructor.
  - destruct (p x); [now apply perm_skip | exact IH].
  - destruct (p x), (p y); try apply Permutation_refl. apply perm_swap.
  - now apply perm_trans with (filter p l').
Qed.

Lemma filter_none (l : list A) :
  forallb (fun x => negb (p x)) l = true -> filter p l = [].
Proof.
  induction l as [|x t IH]; simpl; [reflexivity|].
  destruct (p x); simpl; [discriminate | exact IH].
Qed.

Lemma filter_neg_none (l : list A) :
  forallb p l = true -> filter (fun x => negb (p x)) l = [].
Proof.
  induction l as [|x t IH]; simpl; [reflexivity|].
  destruct (p x); simpl; [exact IH | discriminate].
Qed.

End FilterFacts.

Section PartitionFacts.
Context {SA : StdAlgorithms}.
Variable A : Type.
Variable p : A -> bool.
Variable l : list A.

(** The front of a partitioned range is the elements that satisfy the
    predicate, the back is the others, each in some order. *)
Lemma std_partition_front_filter :
  filter p (fst (std_partition p l))
  = firstn (snd (std_partition p l)) (fst (std_partition p l)).
Proof.
  rewrite <- (firstn_skipn (snd (std_partition p l)) (fst (std_partition p l))) at 1.
  rewrite filter_app.
  rewrite (filter_none _ _ (std_partition_back p l)), app_nil_r.
  apply forallb_filter_id, std_partition_front.
Qed.

Lemma std_partition_back_filter :
  filter (fun x => negb (p x)) (fst (std_partition p l))
  = skipn (snd (std_partition p l)) (fst (std_partition p l)).
Proof.
  rewrite <- (firstn_skipn (snd (std_partition p l)) (fst (std_partition p l))) at 1.
  rewrite filter_app.
  rewrite (filter_neg_none _ _ (std_partition_front p l)). simpl.
  apply forallb_filter_id, std_partition_back.
Qed.

Lemma std_partition_front_perm :
  Permutation (firstn (snd (std_partition p l)) (fst (std_partition p l))) (filter p l).
Proof.
  rewrite <- std_partition_front_filter.
  apply Permutation_sym, Permutation_filter, std_partition_perm.
Qed.

Lemma std_partition_back_perm :
  Permutation (skipn (snd (std_partition p l)) (fst (std_partition p l)))
    (filter (fun x => negb (p x)) l).
Proof.
  rewrite <- std_partition_back_filter.
  apply Permutation_sym, Permutation_filter, std_partition_perm.
Qed.

Lemma std_partition_point :
  snd (std_partition p l) = List.length (filter p l).
Proof.
  rewrite <- (Permutation_length std_partition_front_perm).
  rewrite length_firstn. pose proof (std_partition_le p l). lia.
Qed.

End PartitionFacts.

(** ** The pipeline *)

Section PipelineFacts.
Context {SA : StdAlgorithms} {C : Collaborators}.

Lemma quiet_skip : quiet skip.
Proof. intros s. exists []. now rewrite app_nil_r. Qed.

Lemma quiet_effect (f : World -> World) : quiet (effect f).
Proof. intros s. exists []. now rewrite app_nil_r. Qed.

Lemma quiet_emit (e : Event) : collab_event e = true -> quiet (emit e).
Proof. intros He s. exists [e]. simpl. now rewrite He. Qed.

Lemma quiet_seq (a b : Proc) : quiet a -> quiet b -> quiet (seq a b).
Proof.
  intros Ha Hb s. unfold seq.
  destruct (Ha s) as (e1 & H1 & F1). destruct (Hb (a s)) as (e2 & H2 & F2).
  exists (e1 ++ e2). rewrite H2, H1, app_assoc, forallb_app, F1, F2. now split.
Qed.

Lemma quiet_call_skip : quiet (call (Some skip)).
Proof. exact quiet_skip. Qed.

Lemma quiet_GetLatest (files folders : list string)
  (callback : CVersionControlResult -> Proc) :
  (forall result, quiet (callback result)) ->
  quiet (CVersionControl_GetLatest files folders callback).
Proof.
  intros Hk s. unfold CVersionControl_GetLatest.
  destruct (Hk (VersionControl_result files folders (world (emit (EvGetLatest files folders) s)))
              (effect (VersionControl_pull files folders) (emit (EvGetLatest files folders) s)))
    as (evs & Hl & Hf).
  exists (EvGetLatest files folders :: evs). split; [|exact Hf].
  rewrite Hl. simpl. now rewrite <- app_assoc.
Qed.

Lemma quiet_UpdateStatus (fileGroups : list GroupPtr) (folders : list string)
  (callback : Proc) :
  quiet callback -> quiet (CAssetsVCSStatusProvider_UpdateStatus fileGroups folders callback).
Proof.
  intros Hk. unfold CAssetsVCSStatusProvider_UpdateStatus.
  apply quiet_seq; [now apply quiet_emit|].
  apply quiet_seq; [apply quiet_effect | exact Hk].
Qed.

Lemma quiet_update_all (pFileGroups : list GroupPtr) : quiet (update_all pFileGroups).
Proof.
  induction pFileGroups as [|g t IH]; simpl; [apply quiet_skip|].
  apply quiet_seq; [|exact IH]. unfold pFileGroup_Update.
  apply quiet_seq; [now apply quiet_emit | apply quiet_effect].
Qed.

Lemma quiet_import_layers (missingFiles : list string) : quiet (import_layers missingFiles).
Proof.
  induction missingFiles as [|f t IH]; simpl; [apply quiet_skip|].
  apply quiet_seq; [now apply quiet_emit|].
  apply quiet_seq; [|exact IH].
  intros s.
  exists [EvImportLayerFromFile (PathUtil_Make PathUtil_GetGameProjectAssetsRelativePath f);
          EvSetModified
            (snd (LayerManager_ImportLayerFromFile
                    (PathUtil_Make PathUtil_GetGameProjectAssetsRelativePath f) (world s)))
            false].
  unfold seq, emit, effect. simpl. rewrite <- app_assoc. now split.
Qed.

Lemma quiet_CompareFilesAndDownloadMissing (newFiles originalFiles : list string) :
  quiet (CompareFilesAndDownloadMissing newFiles originalFiles (Some skip)).
Proof.
  unfold CompareFilesAndDownloadMissing.
  destruct (negb _); [apply quiet_GetLatest; intros _|]; apply quiet_call_skip.
Qed.

Lemma quiet_onGetLatest (originalFiles : list string) (pFileGroups : list GroupPtr)
  (firstDeletedIndex : nat) (result : CVersionControlResult) :
  quiet (onGetLatest originalFiles pFileGroups firstDeletedIndex (Some skip) result).
Proof.
  unfold onGetLatest. apply quiet_seq; [apply quiet_update_all|].
  intros s. cbv zeta.
  destruct (is_empty _); [apply quiet_call_skip|].
  apply quiet_CompareFilesAndDownloadMissing.
Qed.

(** Left to itself the pipeline only calls collaborators. *)
Lemma quiet_Sync (fileGroups : list GroupPtr) (folders : list string) :
  quiet (Sync fileGroups folders None).
Proof.
  unfold Sync. apply quiet_UpdateStatus.
  intros s. cbv zeta.
  destruct (is_empty (relevance_filter _ _)).
  - destruct (is_empty folders); [apply quiet_call_skip|].
    apply quiet_GetLatest. intros _. apply quiet_call_skip.
  - apply quiet_GetLatest. intros result. apply quiet_onGetLatest.
Qed.

Lemma quiet_onSync (originalFiles folders : list string) :
  quiet (onSync originalFiles folders None).
Proof.
  intros s. unfold onSync.
  apply (quiet_seq (quiet_import_layers _) quiet_skip).
Qed.

Lemma collab_events_no_callback (evs : list Event) :
  forallb collab_event evs = true -> filter is_callback evs = [].
Proof.
  induction evs as [|e t IH]; simpl; [reflexivity|].
  destruct e; simpl; try exact IH; discriminate.
Qed.

Lemma collab_events_no_bad_call (evs : list Event) :
  forallb collab_event evs = true -> filter is_bad_call evs = [].
Proof.
  induction evs as [|e t IH]; simpl; [reflexivity|].
  destruct e; simpl; try exact IH; discriminate.
Qed.

Lemma quiet_callbacks (p : Proc) (s : State World) :
  quiet p -> callbacks (p s) = callbacks s.
Proof.
  intros Hq. destruct (Hq s) as (evs & Hl & Hf). unfold callbacks.
  now rewrite Hl, filter_app, (collab_events_no_callback _ Hf), app_nil_r.
Qed.

Lemma quiet_bad_calls (p : Proc) (s : State World) :
  quiet p -> bad_calls (p s) = bad_calls s.
Proof.
  intros Hq. destruct (Hq s) as (evs & Hl & Hf). unfold bad_calls.
  now rewrite Hl, filter_app, (collab_events_no_bad_call _ Hf), app_nil_r.
Qed.

(** *** The callback is the last step of every path *)

Lemma call_tail (cb : Proc) (s : State World) :
  call (Some cb) s = cb (call (Some skip) s).
Proof. reflexivity. Qed.

Lemma CompareFilesAndDownloadMissing_tail (newFiles originalFiles : list string)
  (cb : Proc) (s : State World) :
  CompareFilesAndDownloadMissing newFiles originalFiles (Some cb) s
  = cb (CompareFilesAndDownloadMissing newFiles originalFiles (Some skip) s).
Proof.
  unfold CompareFilesAndDownloadMissing. now destruct (negb _).
Qed.

Lemma onGetLatest_tail (originalFiles : list string) (pFileGroups : list GroupPtr)
  (firstDeletedIndex : nat) (result : CVersionControlResult)
  (cb : Proc) (s : State World) :
  onGetLatest originalFiles pFileGroups firstDeletedIndex (Some cb) result s
  = cb (onGetLatest originalFiles pFileGroups firstDeletedIndex (Some skip) result s).
Proof.
  unfold onGetLatest, seq.
  destruct (is_empty _); [reflexivity|].
  apply CompareFilesAndDownloadMissing_tail.
Qed.

(** Running [Sync] with a callback is running it without one and calling
    the callback on what that leaves. *)
Lemma Sync_tail (fileGroups : list GroupPtr) (folders : list string)
  (cb : Proc) (s : State World) :
  Sync fileGroups folders (Some cb) s = cb (Sync fileGroups folders None s).
Proof.
  unfold Sync, CAssetsVCSStatusProvider_UpdateStatus, seq.
  cbv zeta.
  destruct (is_empty (relevance_filter _ _)).
  - now destruct (is_empty folders).
  - unfold CVersionControl_GetLatest. cbv zeta. apply onGetLatest_tail.
Qed.

Lemma onSync_tail (originalFiles folders : list string) (cb : Proc) (s : State World) :
  onSync originalFiles folders (Some cb) s = cb (onSync originalFiles folders None s).
Proof. reflexivity. Qed.

Lemma Sync_layers_tail (layers : list LayerPtr) (folders : list string)
  (cb : Proc) (s : State World) :
  Sync_layers layers folders (Some cb) s = cb (Sync_layers layers folders None s).
Proof.
  unfold Sync_layers. cbv zeta. rewrite !Sync_tail. apply onSync_tail.
Qed.

Lemma quiet_Sync_layers (layers : list LayerPtr) (folders : list string) :
  quiet (Sync_layers layers folders None).
Proof.
  intros s. unfold Sync_layers. cbv zeta. rewrite Sync_tail.
  destruct (quiet_Sync (ToFileGroups_layers (world s) layers) folders s) as (e1 & H1 & F1).
  destruct (quiet_onSync (GetLayersFilesInFolders (world s) folders) folders
              (Sync (ToFileGroups_layers (world s) layers) folders None s))
    as (e2 & H2 & F2).
  exists (e1 ++ e2). rewrite H2, H1, app_assoc, forallb_app, F1, F2. now split.
Qed.

Lemma callbacks_user_callback (s : State World) :
  callbacks (user_callback s) = S (callbacks s).
Proof.
  unfold callbacks, user_callback, emit. simpl.
  rewrite filter_app, length_app. simpl. lia.
Qed.

Lemma Sync_calls_back_once (fileGroups : list GroupPtr) (folders : list string)
  (s : State World) :
  callbacks (Sync fileGroups folders (Some user_callback) s) = S (callbacks s).
Proof.
  now rewrite Sync_tail, callbacks_user_callback, (quiet_callbacks s (quiet_Sync _ _)).
Qed.

Lemma Sync_layers_calls_back_once (layers : list LayerPtr) (folders : list string)
  (s : State World) :
  callbacks (Sync_layers layers folders (Some user_callback) s) = S (callbacks s).
Proof.
  now rewrite Sync_layers_tail, callbacks_user_callback,
    (quiet_callbacks s (quiet_Sync_layers _ _)).
Qed.

(** *** The two partitions *)

(** The mask of the relevance filter asks for either flag. *)
Lemma changed_remotely_or (w : World) (g : GroupPtr) :
  changed_remotely w g
  = HasStatus w g eState_UpdatedRemotely || HasStatus w g eState_DeletedRemotely.
Proof.
  unfold changed_remotely, HasStatus.
  rewrite Z.land_lor_distr_r.
  destruct (Z.eqb_spec (Z.land (StatusProvider_status w g) eState_UpdatedRemotely) 0) as [E1|E1];
    destruct (Z.eqb_spec (Z.land (StatusProvider_status w g) eState_DeletedRemotely) 0) as [E2|E2];
    simpl.
  - rewrite E1, E2. reflexivity.
  - destruct (Z.eqb_spec (Z.lor (Z.land (StatusProvider_status w g) eState_UpdatedRemotely)
                (Z.land (StatusProvider_status w g) eState_DeletedRemotely)) 0) as [E|E];
      [apply Z.lor_eq_0_iff in E; tauto | reflexivity].
  - destruct (Z.eqb_spec (Z.lor (Z.land (StatusProvider_status w g) eState_UpdatedRemotely)
                (Z.land (StatusProvider_status w g) eState_DeletedRemotely)) 0) as [E|E];
      [apply Z.lor_eq_0_iff in E; tauto | reflexivity].
  - destruct (Z.eqb_spec (Z.lor (Z.land (StatusProvider_status w g) eState_UpdatedRemotely)
                (Z.land (StatusProvider_status w g) eState_DeletedRemotely)) 0) as [E|E];
      [apply Z.lor_eq_0_iff in E; tauto | reflexivity].
Qed.

Lemma erase_guarded (A : Type) (first : nat) (v : list A) :
  (if negb (first =? List.length v) then erase_from first v else v) = firstn first v.
Proof.
  destruct (Nat.eqb_spec first (List.length v)) as [->|]; simpl; [|reflexivity].
  now rewrite firstn_all.
Qed.

Lemma relevance_filter_front (w : World) (pFileGroups : list GroupPtr) :
  relevance_filter w pFileGroups
  = firstn (snd (std_partition (changed_remotely w) pFileGroups))
      (fst (std_partition (changed_remotely w) pFileGroups)).
Proof. unfold relevance_filter. cbv zeta. apply erase_guarded. Qed.

Lemma relevance_filter_perm (w : World) (pFileGroups : list GroupPtr) :
  Permutation (relevance_filter w pFileGroups) (filter (changed_remotely w) pFileGroups).
Proof. rewrite relevance_filter_front. apply std_partition_front_perm. Qed.

Lemma relevance_filter_In (w : World) (pFileGroups : list GroupPtr) (g : GroupPtr) :
  In g (relevance_filter w pFileGroups)
  <-> In g pFileGroups /\ changed_remotely w g = true.
Proof.
  rewrite <- filter_In. split; apply Permutation_in;
    [|apply Permutation_sym]; apply relevance_filter_perm.
Qed.

Lemma relevance_filter_nil (w : World) (pFileGroups : list GroupPtr) :
  forallb (fun g => negb (changed_remotely w g)) pFileGroups = true ->
  relevance_filter w pFileGroups = [].
Proof.
  intros H. apply Permutation_nil, Permutation_sym.
  rewrite <- (filter_none _ _ H). apply relevance_filter_perm.
Qed.

Lemma erase_deleted_front (firstDeletedIndex : nat) (pFileGroups : list GroupPtr) :
  erase_deleted firstDeletedIndex pFileGroups = firstn firstDeletedIndex pFileGroups.
Proof. apply erase_guarded. Qed.

(** *** The runs in closed form *)

Lemma update_all_eq (pFileGroups : list GroupPtr) (s : State World) :
  update_all pFileGroups s
  = {| world := fold_left (fun w g => IFilesGroupProvider_Update g w) pFileGroups (world s);
       log := log s ++ map EvUpdate pFileGroups |}.
Proof.
  revert s. induction pFileGroups as [|g t IH]; intros [w l]; simpl.
  - now rewrite app_nil_r.
  - unfold seq at 1. rewrite IH. unfold pFileGroup_Update, seq, emit, effect. simpl.
    now rewrite <- app_assoc.
Qed.

Lemma CompareFilesAndDownloadMissing_eq (newFiles originalFiles : list string)
  (s : State World) :
  CompareFilesAndDownloadMissing newFiles originalFiles (Some user_callback) s
  = if is_empty (fst (FindMissingStrings newFiles originalFiles))
    then {| world := world s; log := log s ++ [EvCallback] |}
    else {| world := VersionControl_pull (fst (FindMissingStrings newFiles originalFiles)) []
                       (world s);
            log := log s ++ [EvGetLatest (fst (FindMissingStrings newFiles originalFiles)) [];
                             EvCallback] |}.
Proof.
  unfold CompareFilesAndDownloadMissing.
  destruct (is_empty _); simpl; [reflexivity|].
  unfold CVersionControl_GetLatest, user_callback, emit, effect. simpl.
  now rewrite <- app_assoc.
Qed.

(** [Sync] step by step: the status refresh, the relevance filter and its
    empty branch, the deletion partition, the snapshot, the broad pull,
    the updates, the excision and its empty branch, the comparison. *)
Lemma Sync_unfold (fileGroups : list GroupPtr) (folders : list string)
  (callback : std_function) (s : State World) :
  let w := StatusProvider_refresh fileGroups [] (world s) in
  let callback' := match callback with None => Some skip | Some _ => callback end in
  let kept := relevance_filter w fileGroups in
  let r := deletion_partition w kept in
  let originalFiles := GetAllFiles w (fst r) in
  let s3 :=
    update_all (fst r)
      {| world := VersionControl_pull originalFiles folders w;
         log := log s ++ [EvUpdateStatus fileGroups []; EvGetLatest originalFiles folders] |} in
  let survivors := erase_deleted (snd r) (fst r) in
  Sync fileGroups folders callback s
  = if is_empty kept then
      if is_empty folders then
        call callback' {| world := w; log := log s ++ [EvUpdateStatus fileGroups []] |}
      else
        call callback'
          {| world := VersionControl_pull [] folders w;
             log := log s ++ [EvUpdateStatus fileGroups []; EvGetLatest [] folders] |}
    else if is_empty survivors then call callback' s3
    else CompareFilesAndDownloadMissing (GetAllFiles (world s3) survivors)
           originalFiles callback' s3.
Proof.
  cbv zeta.
  unfold Sync, CAssetsVCSStatusProvider_UpdateStatus, seq. cbv zeta.
  change (world (effect (StatusProvider_refresh fileGroups [])
                   (emit (EvUpdateStatus fileGroups []) s)))
    with (StatusProvider_refresh fileGroups [] (world s)).
  destruct (is_empty (relevance_filter _ _)).
  - destruct (is_empty folders); [reflexivity|].
    unfold CVersionControl_GetLatest, emit, effect. simpl.
    now rewrite <- app_assoc.
  - unfold CVersionControl_GetLatest, onGetLatest, seq, emit, effect. simpl.
    now rewrite <- app_assoc.
Qed.

Lemma import_layers_log (missingFiles : list string) (s : State World) :
  log (import_layers missingFiles s) = log s ++ import_events (world s) missingFiles.
Proof.
  revert s. induction missingFiles as [|f t IH]; intros s; simpl.
  - now rewrite app_nil_r.
  - unfold seq at 1 2. rewrite IH.
    unfold seq, emit, effect. simpl. now rewrite <- !app_assoc.
Qed.

Lemma Sync_layers_log (layers : list LayerPtr) (folders : list string)
  (s : State World) :
  log (Sync_layers layers folders (Some user_callback) s)
  = log (Sync (ToFileGroups_layers (world s) layers) folders None s)
    ++ import_events (world (Sync (ToFileGroups_layers (world s) layers) folders None s))
         (fst (FindMissingStrings
                 (GetLayersFilesInFolders
                    (world (Sync (ToFileGroups_layers (world s) layers) folders None s))
                    folders)
                 (GetLayersFilesInFolders (world s) folders)))
    ++ [EvCallback].
Proof.
  unfold Sync_layers. cbv zeta. rewrite Sync_tail.
  unfold onSync, seq. cbv zeta. simpl.
  unfold user_callback, emit. simpl.
  now rewrite import_layers_log, <- app_assoc.
Qed.

(** *** Short ranges leave [std::partition] no choice *)

Lemma relevance_filter_one (w : World) (g : GroupPtr) :
  changed_remotely w g = true -> relevance_filter w [g] = [g].
Proof.
  intros Hg. apply Permutation_length_1_inv, Permutation_sym.
  eapply perm_trans; [apply relevance_filter_perm|].
  simpl. rewrite Hg. apply Permutation_refl.
Qed.

Lemma deletion_partition_one (w : World) (g : GroupPtr) :
  deleted_remotely w g = false -> deletion_partition w [g] = ([g], 1).
Proof.
  intros Hg. unfold deletion_partition.
  rewrite (surjective_pairing (std_partition _ _)). f_equal.
  - apply Permutation_length_1_inv, std_partition_perm.
  - rewrite std_partition_point. simpl.
    unfold deleted_remotely in Hg. now rewrite Hg.
Qed.

(** Two groups, one deleted remotely: the other comes first. *)
Lemma deletion_partition_two (w : World) (g d : GroupPtr) (l : list GroupPtr) :
  deleted_remotely w g = false -> deleted_remotely w d = true ->
  Permutation [g; d] l -> deletion_partition w l = ([g; d], 1).
Proof.
  intros Hg Hd Hl. unfold deletion_partition.
  set (p := fun pFileGroup => negb (HasStatus w pFileGroup eState_DeletedRemotely)).
  assert (Hk : snd (std_partition p l) = 1).
  { rewrite std_partition_point.
    rewrite <- (Permutation_length (Permutation_filter p Hl)). simpl. unfold p.
    unfold deleted_remotely in Hg, Hd. now rewrite Hg, Hd. }
  rewrite (surjective_pairing (std_partition _ _)), Hk. f_equal.
  pose proof (perm_trans Hl (std_partition_perm p l)) as Hp.
  apply Permutation_length_2_inv in Hp. destruct Hp as [->|Hp]; [reflexivity|].
  pose proof (std_partition_front p l) as Hf. rewrite Hk, Hp in Hf. simpl in Hf.
  unfold p in Hf. unfold deleted_remotely in Hd. rewrite Hd in Hf. discriminate.
Qed.

End PipelineFacts.

(** ** Claims on the pipeline *)

Section PipelineClaims.
Context {SA : StdAlgorithms} {C : Collaborators}.

(** C1: whatever the world answers, and so on every branch of the
    pipeline, each overload of [Sync] calls the callback it was given
    exactly once: the log gains one [EvCallback]. *)
Theorem callback_exactly_once (fileGroups : list GroupPtr) (folders : list string)
  (assets : list AssetPtr) (pFileGroup : GroupPtr) (layers : list LayerPtr)
  (s : State World) :
  callbacks (Sync fileGroups folders (Some user_callback) s) = S (callbacks s)
  /\ callbacks (Sync_assets assets folders (Some user_callback) s) = S (callbacks s)
  /\ callbacks (Sync_fileGroup pFileGroup (Some user_callback) s) = S (callbacks s)
  /\ callbacks (Sync_layers layers folders (Some user_callback) s) = S (callbacks s).
Proof.
  repeat split.
  - apply Sync_calls_back_once.
  - unfold Sync_assets. apply Sync_calls_back_once.
  - unfold Sync_fileGroup. apply Sync_calls_back_once.
  - apply Sync_layers_calls_back_once.
Qed.

(** C9: the result of a pull is never looked at.  Let every pull answer
    with any result of any type: each overload of [Sync] runs exactly as
    before, and the callback is still called once. *)
Theorem pull_result_not_inspected (R : Type)
  (result : list string -> list string -> World -> R)
  (fileGroups : list GroupPtr) (folders : list string) (assets : list AssetPtr)
  (pFileGroup : GroupPtr) (layers : list LayerPtr)
  (callback : std_function) (s : State World) :
  @Sync SA (with_result C result) fileGroups folders callback s
    = Sync fileGroups folders callback s
  /\ @Sync_assets SA (with_result C result) assets folders callback s
    = Sync_assets assets folders callback s
  /\ @Sync_fileGroup SA (with_result C result) pFileGroup callback s
    = Sync_fileGroup pFileGroup callback s
  /\ @Sync_layers SA (with_result C result) layers folders callback s
    = Sync_layers layers folders callback s
  /\ @callbacks (with_result C result)
       (@Sync SA (with_result C result) fileGroups folders
          (Some (@user_callback (with_result C result))) s)
     = S (callbacks s).
Proof.
  repeat split; try reflexivity.
  apply (@Sync_calls_back_once SA (with_result C result)).
Qed.

(** C10: an empty callback is replaced by one that does nothing before the
    pipeline starts, so no empty [std::function] is called, and a run with
    a callback is the run without one followed by the callback; the layers
    overload tests its callback before the call. *)
Theorem null_callback_is_safe (fileGroups : list GroupPtr) (folders : list string)
  (layers : list LayerPtr) (cb : Proc) (s : State World) :
  Sync fileGroups folders None = Sync fileGroups folders (Some skip)
  /\ bad_calls (Sync fileGroups folders None s) = bad_calls s
  /\ Sync fileGroups folders (Some cb) s = cb (Sync fileGroups folders None s)
  /\ bad_calls (Sync_layers layers folders None s) = bad_calls s
  /\ Sync_layers layers folders (Some cb) s = cb (Sync_layers layers folders None s).
Proof.
  split; [reflexivity|]. repeat split.
  - apply quiet_bad_calls, quiet_Sync.
  - apply Sync_tail.
  - apply quiet_bad_calls, quiet_Sync_layers.
  - apply Sync_layers_tail.
Qed.

(** X3, the narrow pull: [CompareFilesAndDownloadMissing] pulls what
    [FindMissingStrings] returns, those files and no folder, and then calls
    the callback; when it returns nothing the callback is called at once. *)
Theorem narrow_pull_asks_for_missing (newFiles originalFiles : list string)
  (s : State World) :
  let missingFiles := fst (FindMissingStrings newFiles originalFiles) in
  CompareFilesAndDownloadMissing newFiles originalFiles (Some user_callback) s
  = if is_empty missingFiles
    then {| world := world s; log := log s ++ [EvCallback] |}
    else {| world := VersionControl_pull missingFiles [] (world s);
            log := log s ++ [EvGetLatest missingFiles []; EvCallback] |}.
Proof. apply CompareFilesAndDownloadMissing_eq. Qed.

(** X4: the layers overload scans the folders before the sync starts and again
    when it has completed, and then, for each string [FindMissingStrings]
    returns for the two scans and in that order, logs it, imports it and
    marks the imported layer unmodified; the callback comes last. *)
Theorem layers_are_imported_in_order (layers : list LayerPtr) (folders : list string)
  (s : State World) :
  let originalFiles := GetLayersFilesInFolders (world s) folders in
  let s' := Sync (ToFileGroups_layers (world s) layers) folders None s in
  let newFiles := GetLayersFilesInFolders (world s') folders in
  let missingFiles := fst (FindMissingStrings newFiles originalFiles) in
  log (Sync_layers layers folders (Some user_callback) s)
  = log s' ++ import_events (world s') missingFiles ++ [EvCallback].
Proof. apply Sync_layers_log. Qed.

(** X5: [GetAllFiles] is the files of the groups, group after group. *)
Theorem GetAllFiles_flat_map (w : World) (fileGroups : list GroupPtr) :
  GetAllFiles w fileGroups = flat_map (IFilesGroupProvider_GetFiles w) fileGroups.
Proof.
  unfold GetAllFiles.
  enough (H : forall acc,
    fold_left (fun result g => result ++ IFilesGroupProvider_GetFiles w g) fileGroups acc
    = acc ++ flat_map (IFilesGroupProvider_GetFiles w) fileGroups) by apply (H []).
  induction fileGroups as [|g t IH]; intros acc; simpl.
  - now rewrite app_nil_r.
  - now rewrite IH, app_assoc.
Qed.

End PipelineClaims.

Section PartitionClaims.
Context {SA : StdAlgorithms} {C : Collaborators}.

(** C3, as the code has it: the relevance filter keeps exactly the groups
    whose status includes [UpdatedRemotely] or [DeletedRemotely], each as
    often as it was given, in an order [std::partition] chooses; the
    deletion partition puts the groups not deleted remotely before the
    deleted ones, again in some order, and [firstDeletedIndex] counts the
    former. *)
Theorem partitions_keep_and_split (w : World) (fileGroups : list GroupPtr) :
  let kept := relevance_filter w fileGroups in
  let r := deletion_partition w kept in
  Permutation kept (filter (changed_remotely w) fileGroups)
  /\ (forall g, In g kept <->
        In g fileGroups
        /\ (HasStatus w g eState_UpdatedRemotely = true
            \/ HasStatus w g eState_DeletedRemotely = true))
  /\ Permutation (fst r) kept
  /\ Permutation (firstn (snd r) (fst r))
       (filter (fun g => negb (deleted_remotely w g)) kept)
  /\ Permutation (skipn (snd r) (fst r)) (filter (deleted_remotely w) kept)
  /\ snd r = List.length (filter (fun g => negb (deleted_remotely w g)) kept).
Proof.
  cbv zeta. unfold deletion_partition.
  split; [apply relevance_filter_perm|].
  split.
  { intros g. rewrite relevance_filter_In, changed_remotely_or, orb_true_iff.
    reflexivity. }
  split; [apply Permutation_sym, std_partition_perm|].
  split; [apply std_partition_front_perm|].
  split; [|apply std_partition_point].
  eapply perm_trans; [apply std_partition_back_perm|].
  erewrite filter_ext; [apply Permutation_refl|].
  intros g. apply negb_involutive.
Qed.

(** C4: when the broad pull is issued, what runs after it is the update of
    every group and then, on the groups before [firstDeletedIndex] only,
    the empty test and the comparison with the snapshot; no group whose
    status includes [DeletedRemotely] is among them, so [newFiles] is read
    from groups that are changed but not deleted remotely. *)
Theorem deleted_groups_are_excised (fileGroups : list GroupPtr) (folders : list string)
  (callback : std_function) (s : State World) :
  let w := StatusProvider_refresh fileGroups [] (world s) in
  let kept := relevance_filter w fileGroups in
  let r := deletion_partition w kept in
  let survivors := erase_deleted (snd r) (fst r) in
  let originalFiles := GetAllFiles w (fst r) in
  let s3 :=
    update_all (fst r)
      {| world := VersionControl_pull originalFiles folders w;
         log := log s ++ [EvUpdateStatus fileGroups []; EvGetLatest originalFiles folders] |} in
  let callback' := match callback with None => Some skip | Some _ => callback end in
  is_empty kept = false ->
  (forall g, deleted_remotely w g = true -> ~ In g survivors)
  /\ (forall g, In g survivors <->
        In g fileGroups /\ changed_remotely w g = true /\ deleted_remotely w g = false)
  /\ Sync fileGroups folders callback s
     = if is_empty survivors then call callback' s3
       else CompareFilesAndDownloadMissing (GetAllFiles (world s3) survivors)
              originalFiles callback' s3.
Proof.
  cbv zeta. intros Hkept.
  assert (Hin : forall g,
    In g (erase_deleted (snd (deletion_partition (StatusProvider_refresh fileGroups [] (world s))
                                (relevance_filter (StatusProvider_refresh fileGroups [] (world s)) fileGroups)))
            (fst (deletion_partition (StatusProvider_refresh fileGroups [] (world s))
                    (relevance_filter (StatusProvider_refresh fileGroups [] (world s)) fileGroups))))
    <-> In g fileGroups
        /\ changed_remotely (StatusProvider_refresh fileGroups [] (world s)) g = true
        /\ deleted_remotely (StatusProvider_refresh fileGroups [] (world s)) g = false).
  { intros g. rewrite erase_deleted_front. unfold deletion_partition.
    transitivity (In g (filter (fun g => negb (deleted_remotely
                                   (StatusProvider_refresh fileGroups [] (world s)) g))
                          (relevance_filter (StatusProvider_refresh fileGroups [] (world s)) fileGroups))).
    - split; apply Permutation_in; [|apply Permutation_sym]; apply std_partition_front_perm.
    - rewrite filter_In, negb_true_iff, relevance_filter_In. tauto. }
  split; [|split; [exact Hin|]].
  - intros g Hdel Hg. apply Hin in Hg. destruct Hg as (_ & _ & Hnot). congruence.
  - rewrite Sync_unfold. cbv zeta. now rewrite Hkept.
Qed.

(** C7: when no group is changed remotely once the status is refreshed,
    [Sync] with no folder calls the callback and pulls nothing, and [Sync]
    with folders pulls once, no file and those folders, and then calls
    the callback. *)
Theorem nothing_changed_remotely (fileGroups : list GroupPtr) (folders : list string)
  (s : State World) :
  let w := StatusProvider_refresh fileGroups [] (world s) in
  forallb (fun g => negb (changed_remotely w g)) fileGroups = true ->
  (folders = [] ->
     Sync fileGroups folders (Some user_callback) s
     = {| world := w; log := log s ++ [EvUpdateStatus fileGroups []; EvCallback] |}
     /\ pulls (Sync fileGroups folders (Some user_callback) s) = pulls s
     /\ callbacks (Sync fileGroups folders (Some user_callback) s) = S (callbacks s))
  /\ (folders <> [] ->
     Sync fileGroups folders (Some user_callback) s
     = {| world := VersionControl_pull [] folders w;
          log := log s ++ [EvUpdateStatus fileGroups []; EvGetLatest [] folders; EvCallback] |}
     /\ pulls (Sync fileGroups folders (Some user_callback) s) = S (pulls s)
     /\ callbacks (Sync fileGroups folders (Some user_callback) s) = S (callbacks s)).
Proof.
  cbv zeta. intros Hnone.
  apply relevance_filter_nil in Hnone.
  split; intros Hf; rewrite Sync_unfold; cbv zeta; rewrite Hnone; cbn [is_empty].
  - subst folders. cbn [is_empty call]. unfold user_callback, emit. cbn [world log].
    rewrite <- app_assoc. cbn [app].
    unfold pulls, callbacks. cbn [log]. rewrite !filter_app, !length_app.
    cbn. repeat split; lia.
  - destruct folders as [|f fs]; [congruence|]. cbn [is_empty call].
    unfold user_callback, emit. cbn [world log].
    rewrite <- app_assoc. cbn [app].
    unfold pulls, callbacks. cbn [log]. rewrite !filter_app, !length_app.
    cbn. repeat split; lia.
Qed.

End PartitionClaims.

(** ** The pipeline on scripted worlds *)

Section Scripted.
Local Open Scope string_scope.

(** The scenarios of the spec: no group and no folder, a folder only, a
    group that needs no sync, a file discovered by the update, a group
    deleted remotely. *)
Example scenario_empty :
  log (Sync (C := Sim.collaborators Sim.unchanged) [] [] (Some user_callback)
         (Sim.init Sim.unchanged))
  = [EvUpdateStatus [] []; EvCallback].
Proof. reflexivity. Qed.

Example scenario_folder_only :
  log (Sync (C := Sim.collaborators Sim.unchanged) [] ["Levels/Forest"] (Some user_callback)
         (Sim.init Sim.unchanged))
  = [EvUpdateStatus [] []; EvGetLatest [] ["Levels/Forest"]; EvCallback].
Proof. reflexivity. Qed.

Example scenario_no_op_group :
  log (Sync (C := Sim.collaborators Sim.unchanged) [0] [] (Some user_callback)
         (Sim.init Sim.unchanged))
  = [EvUpdateStatus [0] []; EvCallback].
Proof. reflexivity. Qed.

Example scenario_discovery :
  log (Sync (C := Sim.collaborators Sim.discovery) [0] [] (Some user_callback)
         (Sim.init Sim.discovery))
  = [EvUpdateStatus [0] []; EvGetLatest ["a.cgf"] []; EvUpdate 0;
     EvGetLatest ["a.cgf.mtl"] []; EvCallback].
Proof. reflexivity. Qed.

Example scenario_deletion :
  log (Sync (C := Sim.collaborators Sim.deletion) [0] [] (Some user_callback)
         (Sim.init Sim.deletion))
  = [EvUpdateStatus [0] []; EvGetLatest ["b.cgf"] []; EvUpdate 0; EvCallback].
Proof. reflexivity. Qed.

(** With names in lower case the layers overload imports the new layer
    and only it. *)
Example scenario_layer_added :
  log (Sync_layers (C := Sim.collaborators Sim.layers_added_lower) [] ["Levels/Forest"]
         (Some user_callback) (Sim.init Sim.layers_added_lower))
  = [EvUpdateStatus [] []; EvGetLatest [] ["Levels/Forest"];
     EvCryLog "Levels/Forest/layers/ai.lyr";
     EvImportLayerFromFile "Assets/Levels/Forest/layers/ai.lyr";
     EvSetModified 0 false; EvCallback].
Proof. reflexivity. Qed.

(** X7, witness. *)
Lemma FindMissingStrings_lower_case_witness :
  count_occ string_dec (fst (FindMissingStrings ["a.cgf"; "a.cgf.mtl"] ["a.cgf"])) "a.cgf.mtl"
  = 1.
Proof.
  exact (FindMissingStrings_lower_case (SA := usual_algorithms)
           (vec1 := ["a.cgf"; "a.cgf.mtl"]) (vec2 := ["a.cgf"]) "a.cgf.mtl"
           ltac:(repeat constructor) ltac:(repeat constructor)).
Defined.

(** C3, counterexample: of the groups [0; 1; 2; 3], group 0 unchanged and
    group 3 deleted remotely, the relevance filter keeps [3; 1; 2], where
    the order of the input is [1; 2; 3]; the deletion partition then
    leaves [2; 1] in front of group 3, where the order it was given is
    [1; 2]. *)
Lemma partitions_are_not_stable :
  relevance_filter (C := Sim.collaborators Sim.mixed) Sim.start [0; 1; 2; 3] = [3; 1; 2]
  /\ filter (changed_remotely (C := Sim.collaborators Sim.mixed) Sim.start) [0; 1; 2; 3]
     = [1; 2; 3]
  /\ deletion_partition (C := Sim.collaborators Sim.mixed) Sim.start [3; 1; 2]
     = ([2; 1; 3], 2)
  /\ filter (fun g => negb (deleted_remotely (C := Sim.collaborators Sim.mixed) Sim.start g))
       [3; 1; 2] = [1; 2].
Proof. repeat split; reflexivity. Qed.

(** C1, witness: the discovery run, with insertion sort and the two-pointer
    partition. *)
Lemma callback_exactly_once_witness :
  callbacks (Sync (C := Sim.collaborators Sim.discovery) [0] [] (Some user_callback)
               (Sim.init Sim.discovery)) = 1.
Proof.
  exact (proj1 (callback_exactly_once (SA := usual_algorithms)
                  (C := Sim.collaborators Sim.discovery) [0] [] [] 0 []
                  (Sim.init Sim.discovery))).
Defined.

(** C3, witness: the groups kept of [0; 1; 2; 3] are groups 1, 2 and 3. *)
Lemma partitions_keep_and_split_witness :
  Permutation (relevance_filter (C := Sim.collaborators Sim.mixed) Sim.start [0; 1; 2; 3])
    [1; 2; 3].
Proof.
  exact (proj1 (partitions_keep_and_split (SA := usual_algorithms)
                  (C := Sim.collaborators Sim.mixed) Sim.start [0; 1; 2; 3])).
Defined.

(** C5, witness: the first vector keeps its two strings. *)
Lemma FindMissingStrings_sorts_its_inputs_witness :
  Permutation ["b"; "a"] (fst (snd (FindMissingStrings ["b"; "a"] []))).
Proof.
  exact (proj1 (FindMissingStrings_sorts_its_inputs (SA := usual_algorithms) ["b"; "a"] [])).
Defined.

(** C9, witness: the discovery run when every pull answers 7. *)
Lemma pull_result_not_inspected_witness :
  Sync (C := with_result (Sim.collaborators Sim.discovery) (fun _ _ _ => 7)) [0] []
    (Some user_callback) (Sim.init Sim.discovery)
  = Sync (C := Sim.collaborators Sim.discovery) [0] [] (Some user_callback)
      (Sim.init Sim.discovery).
Proof.
  exact (proj1 (pull_result_not_inspected (SA := usual_algorithms)
                  (C := Sim.collaborators Sim.discovery) (fun _ _ _ => 7)
                  [0] [] [] 0 [] (Some user_callback) (Sim.init Sim.discovery))).
Defined.

(** C10, witness: the discovery run with no callback. *)
Lemma null_callback_is_safe_witness :
  bad_calls (Sync (C := Sim.collaborators Sim.discovery) [0] [] None
               (Sim.init Sim.discovery)) = 0.
Proof.
  exact (proj1 (proj2 (null_callback_is_safe (SA := usual_algorithms)
                         (C := Sim.collaborators Sim.discovery) [0] [] [] skip
                         (Sim.init Sim.discovery)))).
Defined.

(** C4, witness: groups 1 and 2 updated, group 3 deleted remotely. *)
Lemma deleted_groups_are_excised_witness :
  is_empty (relevance_filter (C := Sim.collaborators Sim.mixed) Sim.start [0; 1; 2; 3]) = false
  /\ ~ In 3 (erase_deleted 2 [2; 1; 3]).
Proof.
  split; [reflexivity|].
  exact (proj1 (deleted_groups_are_excised (C := Sim.collaborators Sim.mixed)
                  [0; 1; 2; 3] ["Levels"] (Some user_callback) (Sim.init Sim.mixed)
                  eq_refl) 3 eq_refl).
Defined.

(** C7, witness: one unchanged group, without and with a folder. *)
Lemma nothing_changed_remotely_witness :
  forallb (fun g => negb (changed_remotely (C := Sim.collaborators Sim.unchanged) Sim.start g))
    [0] = true
  /\ Sync (C := Sim.collaborators Sim.unchanged) [0] [] (Some user_callback)
       (Sim.init Sim.unchanged)
     = {| world := Sim.start; log := [EvUpdateStatus [0] []; EvCallback] |}
  /\ pulls (Sync (C := Sim.collaborators Sim.unchanged) [0] ["Levels/Forest"]
              (Some user_callback) (Sim.init Sim.unchanged)) = 1.
Proof.
  split; [reflexivity|]. split.
  - exact (proj1 (proj1 (nothing_changed_remotely (C := Sim.collaborators Sim.unchanged)
                           [0] [] (Sim.init Sim.unchanged) eq_refl) eq_refl)).
  - exact (proj1 (proj2 (proj2 (nothing_changed_remotely
                                  (C := Sim.collaborators Sim.unchanged)
                                  [0] ["Levels/Forest"] (Sim.init Sim.unchanged) eq_refl)
                           ltac:(discriminate)))).
Defined.

End Scripted.

(** ** The defect of the set reconciler, seen from the pipeline *)

Section ScriptedFailures.
Context {SA : StdAlgorithms}.
Local Open Scope string_scope.

(** C2, at the failing inputs, whatever the standard algorithms do with
    equivalent elements.  A group that lists [Objects/Tree.cgf] and, once
    updated, [Objects/bark.mtl] as well: the second pull asks for the file
    of the snapshot again.  A group deleted remotely next to a group that
    lists [B.cgf] before and after the pull: nothing is new and a second
    pull is issued all the same. *)
Theorem narrow_pull_repeats_snapshot_files :
  log (Sync (C := Sim.collaborators Sim.discovery_capital) [0] [] (Some user_callback)
         (Sim.init Sim.discovery_capital))
  = [EvUpdateStatus [0] []; EvGetLatest ["Objects/Tree.cgf"] []; EvUpdate 0;
     EvGetLatest ["Objects/bark.mtl"; "Objects/Tree.cgf"] []; EvCallback]
  /\ log (Sync (C := Sim.collaborators Sim.deletion_capital) [0; 1] [] (Some user_callback)
            (Sim.init Sim.deletion_capital))
  = [EvUpdateStatus [0; 1] []; EvGetLatest ["B.cgf"; "a.cgf"] []; EvUpdate 1; EvUpdate 0;
     EvGetLatest ["B.cgf"] []; EvCallback].
Proof.
  split.
  - rewrite Sync_unfold. cbv zeta.
    rewrite (@relevance_filter_one _ (Sim.collaborators Sim.discovery_capital) _ 0 eq_refl).
    rewrite (@deletion_partition_one _ (Sim.collaborators Sim.discovery_capital) _ 0 eq_refl).
    cbn [fst snd is_empty erase_deleted].
    rewrite update_all_eq, CompareFilesAndDownloadMissing_eq.
    cbn. rewrite !std_sort_one. sort_two "Objects/bark.mtl" "Objects/Tree.cgf".
    reflexivity.
  - rewrite Sync_unfold. cbv zeta.
    assert (Hk : Permutation [1; 0]
                   (relevance_filter (C := Sim.collaborators Sim.deletion_capital)
                      (StatusProvider_refresh [0; 1] []
                         (world (Sim.init Sim.deletion_capital)))
                      [0; 1])).
    { eapply perm_trans; [apply perm_swap|].
      apply Permutation_sym.
      apply (relevance_filter_perm (C := Sim.collaborators Sim.deletion_capital)). }
    assert (Hne : is_empty (relevance_filter (C := Sim.collaborators Sim.deletion_capital)
                      (StatusProvider_refresh [0; 1] []
                         (world (Sim.init Sim.deletion_capital)))
                      [0; 1]) = false).
    { destruct (relevance_filter _ _); [|reflexivity].
      apply Permutation_sym, Permutation_nil in Hk. discriminate. }
    rewrite Hne.
    rewrite (@deletion_partition_two _ (Sim.collaborators Sim.deletion_capital) _ 1 0 _
               eq_refl eq_refl Hk).
    cbn [fst snd is_empty erase_deleted].
    rewrite update_all_eq, CompareFilesAndDownloadMissing_eq.
    cbn. rewrite !std_sort_one. sort_two "a.cgf" "B.cgf".
    reflexivity.
Qed.

(** C8, at the failing input, whatever the standard algorithms do with
    equivalent elements: [Layers/Main.lyr] is on disk before the sync, the
    pull adds [Layers/ai.lyr], and both are imported. *)
Theorem layer_present_before_sync_is_imported :
  GetLayersFilesInFolders (C := Sim.collaborators Sim.layers_added) Sim.start ["Levels/Forest"]
  = ["Levels/Forest/Layers/Main.lyr"]
  /\ log (Sync_layers (C := Sim.collaborators Sim.layers_added) [] ["Levels/Forest"]
            (Some user_callback) (Sim.init Sim.layers_added))
  = [EvUpdateStatus [] []; EvGetLatest [] ["Levels/Forest"];
     EvCryLog "Levels/Forest/Layers/ai.lyr";
     EvImportLayerFromFile "Assets/Levels/Forest/Layers/ai.lyr";
     EvSetModified 0 false;
     EvCryLog "Levels/Forest/Layers/Main.lyr";
     EvImportLayerFromFile "Assets/Levels/Forest/Layers/Main.lyr";
     EvSetModified 1 false;
     EvCallback].
Proof.
  split; [reflexivity|].
  rewrite Sync_layers_log.
  rewrite !Sync_unfold. cbv zeta.
  rewrite !(@relevance_filter_nil _ (Sim.collaborators Sim.layers_added) _ [] eq_refl).
  cbn. rewrite !std_sort_one.
  sort_two "Levels/Forest/Layers/ai.lyr" "Levels/Forest/Layers/Main.lyr".
  reflexivity.
Qed.

End ScriptedFailures.

(** * Further properties of the file *)

(** ** The set reconciler, whatever the case of the paths *)

Section SetDifferenceBounds.
Variable A : Type.
Variable eq_dec : forall a b : A, {a = b} + {a <> b}.
Variable comp : A -> A -> bool.
Hypothesis comp_total : forall a b, comp a b = false -> comp b a = false -> a = b.

(** Sorted or not, the merge drops an element of the first range only
    against an equal element of the second, and each of those once. *)
Lemma std_set_difference_bounds (r1 r2 : list A) (x : A) :
  count_occ eq_dec r1 x - count_occ eq_dec r2 x
    <= count_occ eq_dec (std_set_difference comp r1 r2) x
  /\ count_occ eq_dec (std_set_difference comp r1 r2) x <= count_occ eq_dec r1 x.
Proof.
  revert r2. induction r1 as [|x1 t1 IH]; intros r2; [simpl; lia|].
  induction r2 as [|y t2 IH2].
  { rewrite std_set_difference_nil_r. lia. }
  cbn [std_set_difference].
  destruct (comp x1 y) eqn:Hxy.
  - change (count_occ eq_dec (x1 :: t1) x - count_occ eq_dec (y :: t2) x
              <= count_occ eq_dec (x1 :: std_set_difference comp t1 (y :: t2)) x
            /\ count_occ eq_dec (x1 :: std_set_difference comp t1 (y :: t2)) x
              <= count_occ eq_dec (x1 :: t1) x).
    specialize (IH (y :: t2)).
    destruct (eq_dec x1 x) as [->|Hne].
    + rewrite !(count_occ_cons_eq eq_dec _ (eq_refl x)). lia.
    + rewrite !(count_occ_cons_neq eq_dec _ Hne). lia.
  - destruct (comp y x1) eqn:Hyx.
    + change (count_occ eq_dec (x1 :: t1) x - count_occ eq_dec (y :: t2) x
                <= count_occ eq_dec (std_set_difference comp (x1 :: t1) t2) x
              /\ count_occ eq_dec (std_set_difference comp (x1 :: t1) t2) x
                <= count_occ eq_dec (x1 :: t1) x).
      destruct (eq_dec y x) as [->|Hne].
      * rewrite (count_occ_cons_eq eq_dec t2 eq_refl). lia.
      * rewrite (count_occ_cons_neq eq_dec t2 Hne). lia.
    + specialize (IH t2). rewrite (comp_total Hxy Hyx).
      destruct (eq_dec y x) as [->|Hne].
      * rewrite !(count_occ_cons_eq eq_dec _ (eq_refl x)). lia.
      * rewrite !(count_occ_cons_neq eq_dec _ Hne). lia.
Qed.

End SetDifferenceBounds.

Section SetDifferenceSorted.
Variable A : Type.
Variable comp order : A -> A -> bool.

(** What the merge writes is in the order of the first range. *)
Lemma std_set_difference_sorted (r1 r2 : list A) :
  sorted_by order r1 -> sorted_by order (std_set_difference comp r1 r2).
Proof.
  unfold sorted_by. revert r2.
  induction r1 as [|x1 t1 IH]; intros r2 Hs; [constructor|].
  apply StronglySorted_inv in Hs. destruct Hs as [Ht Hall].
  induction r2 as [|y t2 IH2]; cbn [std_set_difference].
  - now constructor.
  - destruct (comp x1 y).
    + constructor; [now apply IH|].
      rewrite Forall_forall in *. intros z Hz.
      apply Hall. exact (std_set_difference_incl comp t1 (y :: t2) z Hz).
    + destruct (comp y x1); [exact IH2 | now apply IH].
Qed.

End SetDifferenceSorted.

Lemma std_set_difference_length (A : Type) (comp : A -> A -> bool) (r1 r2 : list A) :
  List.length (std_set_difference comp r1 r2) <= List.length r1.
Proof.
  revert r2. induction r1 as [|x1 t1 IH]; intros r2; [simpl; lia|].
  induction r2 as [|y t2 IH2]; cbn [std_set_difference]; [lia|].
  destruct (comp x1 y).
  - simpl. specialize (IH (y :: t2)). lia.
  - destruct (comp y x1); [exact IH2|].
    specialize (IH t2). simpl. lia.
Qed.

Section ReconcilerMore.
Context {SA : StdAlgorithms}.

Lemma FindMissingStrings_count_bounds (vec1 vec2 : list string) (x : string) :
  count_occ string_dec vec1 x - count_occ string_dec vec2 x
    <= count_occ string_dec (fst (FindMissingStrings vec1 vec2)) x
  /\ count_occ string_dec (fst (FindMissingStrings vec1 vec2)) x
    <= count_occ string_dec vec1 x.
Proof.
  unfold FindMissingStrings. cbn [fst].
  pose proof (@std_set_difference_bounds _ string_dec CryString.less less_trichotomy
                (std_sort CryString.less_stricmp vec1)
                (std_sort CryString.less_stricmp vec2) x) as H.
  rewrite <- !(proj1 (Permutation_count_occ string_dec _ _)
                 (std_sort_perm CryString.less_stricmp _)) in H.
  exact H.
Qed.

Lemma FindMissingStrings_reports_absent (vec1 vec2 : list string) (x : string) :
  In x vec1 -> ~ In x vec2 -> In x (fst (FindMissingStrings vec1 vec2)).
Proof.
  intros H1 H2.
  apply (count_occ_In string_dec) in H1.
  apply (count_occ_not_In string_dec) in H2.
  apply (count_occ_In string_dec).
  pose proof (FindMissingStrings_count_bounds vec1 vec2 x). lia.
Qed.

(** X8: with capitals or without, [FindMissingStrings] reports a path at
    most as often as the first vector holds it and at least as often as the
    first vector holds it beyond the second, letter for letter; so a path
    of the first vector that the second does not hold letter for letter is
    always reported: the reconciler can report too much, never too
    little. *)
Theorem FindMissingStrings_never_misses (vec1 vec2 : list string) (x : string) :
  (count_occ string_dec vec1 x - count_occ string_dec vec2 x
     <= count_occ string_dec (fst (FindMissingStrings vec1 vec2)) x
   /\ count_occ string_dec (fst (FindMissingStrings vec1 vec2)) x
     <= count_occ string_dec vec1 x)
  /\ (In x vec1 -> ~ In x vec2 -> In x (fst (FindMissingStrings vec1 vec2))).
Proof.
  split; [apply FindMissingStrings_count_bounds | apply FindMissingStrings_reports_absent].
Qed.

Lemma FindMissingStrings_sorted (vec1 vec2 : list string) :
  sorted_by CryString.less_stricmp (fst (FindMissingStrings vec1 vec2)).
Proof.
  unfold FindMissingStrings. cbn [fst].
  apply std_set_difference_sorted.
  apply std_sort_sorted, CryStringFacts.less_stricmp_swo.
Qed.

(** X9: the paths [FindMissingStrings] returns are in case-insensitive
    order, whatever the order of the two inputs: no path of the result is
    below, for [stricmp], a path that precedes it; and the result is no
    longer than the first vector. *)
Theorem FindMissingStrings_result_sorted (vec1 vec2 : list string) :
  sorted_by CryString.less_stricmp (fst (FindMissingStrings vec1 vec2))
  /\ List.length (fst (FindMissingStrings vec1 vec2)) <= List.length vec1.
Proof.
  split; [apply FindMissingStrings_sorted|].
  unfold FindMissingStrings. cbn [fst].
  rewrite (Permutation_length (std_sort_perm CryString.less_stricmp vec1)).
  apply std_set_difference_length.
Qed.

End ReconcilerMore.

(** ** The calls of a run, in order *)

Section RunFacts.
Context {SA : StdAlgorithms} {C : Collaborators}.

Lemma GetAllFiles_concat (w : World) (fileGroups : list GroupPtr) :
  GetAllFiles w fileGroups = flat_map (IFilesGroupProvider_GetFiles w) fileGroups.
Proof.
  unfold GetAllFiles.
  enough (H : forall acc,
    fold_left (fun result g => result ++ IFilesGroupProvider_GetFiles w g) fileGroups acc
    = acc ++ flat_map (IFilesGroupProvider_GetFiles w) fileGroups) by apply (H []).
  induction fileGroups as [|g t IH]; intros acc; simpl.
  - now rewrite app_nil_r.
  - now rewrite IH, app_assoc.
Qed.

Lemma CompareFilesAndDownloadMissing_quietly (newFiles originalFiles : list string)
  (s : State World) :
  CompareFilesAndDownloadMissing newFiles originalFiles (Some skip) s
  = if is_empty (fst (FindMissingStrings newFiles originalFiles)) then s
    else {| world := VersionControl_pull (fst (FindMissingStrings newFiles originalFiles)) []
                       (world s);
            log := log s ++ [EvGetLatest (fst (FindMissingStrings newFiles originalFiles)) []] |}.
Proof.
  unfold CompareFilesAndDownloadMissing.
  destruct (is_empty _); simpl; [now destruct s | reflexivity].
Qed.

Lemma deletion_partition_nil (w : World) : fst (deletion_partition w []) = [].
Proof.
  unfold deletion_partition.
  apply Permutation_nil, std_partition_perm.
Qed.

(** The calls [Sync] makes before the callback. *)
Lemma Sync_None_log (fileGroups : list GroupPtr) (folders : list string)
  (s : State World) :
  let w := StatusProvider_refresh fileGroups [] (world s) in
  let kept := relevance_filter w fileGroups in
  let r := deletion_partition w kept in
  let originalFiles := GetAllFiles w (fst r) in
  let w3 := fold_left (fun w g => IFilesGroupProvider_Update g w) (fst r)
              (VersionControl_pull originalFiles folders w) in
  let survivors := erase_deleted (snd r) (fst r) in
  let missingFiles := fst (FindMissingStrings (GetAllFiles w3 survivors) originalFiles) in
  log (Sync fileGroups folders None s)
  = log s ++ EvUpdateStatus fileGroups [] ::
      (if is_empty kept then
         if is_empty folders then [] else [EvGetLatest [] folders]
       else
         EvGetLatest originalFiles folders :: map EvUpdate (fst r) ++
           (if is_empty survivors then []
            else if is_empty missingFiles then [] else [EvGetLatest missingFiles []])).
Proof.
  cbv zeta. rewrite Sync_unfold. cbv zeta.
  destruct (is_empty (relevance_filter _ _)).
  - destruct (is_empty folders); reflexivity.
  - rewrite update_all_eq. cbn [world log].
    destruct (is_empty (erase_deleted _ _)).
    + cbn [call skip log]. rewrite <- app_assoc, app_nil_r. reflexivity.
    + rewrite CompareFilesAndDownloadMissing_quietly. cbn [world log].
      destruct (is_empty (fst (FindMissingStrings _ _))); cbn [log];
        rewrite <- !app_assoc; [rewrite app_nil_r|]; reflexivity.
Qed.

Lemma Sync_callback_log (fileGroups : list GroupPtr) (folders : list string)
  (s : State World) :
  log (Sync fileGroups folders (Some user_callback) s)
  = log (Sync fileGroups folders None s) ++ [EvCallback].
Proof. now rewrite Sync_tail. Qed.

Lemma no_pull_in_updates (v : list GroupPtr) : filter is_pull (map EvUpdate v) = [].
Proof. induction v; simpl; auto. Qed.

Lemma updates_are_updates (v : list GroupPtr) :
  filter is_update (map EvUpdate v) = map EvUpdate v.
Proof. induction v; simpl; congruence. Qed.

Lemma Sync_pulls (fileGroups : list GroupPtr) (folders : list string) (s : State World) :
  pulls s <= pulls (Sync fileGroups folders None s) <= pulls s + 2.
Proof.
  unfold pulls. rewrite Sync_None_log. cbv zeta.
  rewrite filter_app, length_app. cbn [filter is_pull].
  destruct (is_empty (relevance_filter _ _)).
  - destruct (is_empty folders); simpl; lia.
  - cbn [filter is_pull]. rewrite filter_app, no_pull_in_updates. cbn [app length].
    destruct (is_empty (erase_deleted _ _)); [simpl; lia|].
    destruct (is_empty (fst (FindMissingStrings _ _))); simpl; lia.
Qed.

End RunFacts.

Section RunProperties.
Context {SA : StdAlgorithms} {C : Collaborators}.

(** X10: the calls of one [Sync], in order.  The status of the groups given
    is refreshed first, without folders.  With no group changed remotely
    the folders, if any, are pulled.  Otherwise the files of the groups
    kept are pulled with the folders, every group kept is updated, and,
    unless no group survives the excision or nothing is reported missing,
    the missing files are pulled without folders.  The callback is the
    last call. *)
Theorem Sync_call_sequence (fileGroups : list GroupPtr) (folders : list string)
  (s : State World) :
  let w := StatusProvider_refresh fileGroups [] (world s) in
  let kept := relevance_filter w fileGroups in
  let r := deletion_partition w kept in
  let originalFiles := GetAllFiles w (fst r) in
  let w3 := fold_left (fun w g => IFilesGroupProvider_Update g w) (fst r)
              (VersionControl_pull originalFiles folders w) in
  let survivors := erase_deleted (snd r) (fst r) in
  let missingFiles := fst (FindMissingStrings (GetAllFiles w3 survivors) originalFiles) in
  log (Sync fileGroups folders (Some user_callback) s)
  = (log s ++ EvUpdateStatus fileGroups [] ::
      (if is_empty kept then
         if is_empty folders then [] else [EvGetLatest [] folders]
       else
         EvGetLatest originalFiles folders :: map EvUpdate (fst r) ++
           (if is_empty survivors then []
            else if is_empty missingFiles then [] else [EvGetLatest missingFiles []])))
    ++ [EvCallback].
Proof.
  cbv zeta. rewrite Sync_callback_log. f_equal. apply Sync_None_log.
Qed.

Lemma no_pull_in_imports (w : World) (missingFiles : list string) :
  filter is_pull (import_events w missingFiles) = [].
Proof.
  revert w. induction missingFiles as [|f t IH]; intros w; simpl; [reflexivity|].
  apply IH.
Qed.

Lemma pulls_user_callback (s : State World) : pulls (user_callback s) = pulls s.
Proof.
  unfold pulls, user_callback, emit. cbn [log].
  rewrite filter_app. simpl. now rewrite app_nil_r.
Qed.

(** X11: a run pulls at most twice, whatever the groups, the folders and
    the world: each overload of [Sync] adds between zero and two
    [GetLatest] calls to the log. *)
Theorem Sync_pulls_at_most_twice (fileGroups : list GroupPtr) (folders : list string)
  (assets : list AssetPtr) (pFileGroup : GroupPtr) (layers : list LayerPtr)
  (s : State World) :
  pulls s <= pulls (Sync fileGroups folders (Some user_callback) s) <= pulls s + 2
  /\ pulls s <= pulls (Sync_assets assets folders (Some user_callback) s) <= pulls s + 2
  /\ pulls s <= pulls (Sync_fileGroup pFileGroup (Some user_callback) s) <= pulls s + 2
  /\ pulls s <= pulls (Sync_layers layers folders (Some user_callback) s) <= pulls s + 2.
Proof.
  repeat apply conj;
    try (unfold Sync_assets, Sync_fileGroup; rewrite Sync_tail, pulls_user_callback;
         apply Sync_pulls).
  - unfold pulls at 2. rewrite Sync_layers_log, !filter_app, !length_app.
    rewrite no_pull_in_imports. cbn [filter is_pull List.length].
    pose proof (Sync_pulls (ToFileGroups_layers (world s) layers) folders s) as H.
    unfold pulls in *. lia.
  - unfold pulls at 1. rewrite Sync_layers_log, !filter_app, !length_app.
    rewrite no_pull_in_imports. cbn [filter is_pull List.length].
    pose proof (Sync_pulls (ToFileGroups_layers (world s) layers) folders s) as H.
    unfold pulls in *. lia.
Qed.

(** X12: when a group is changed remotely, the first pull asks for the
    files of exactly the groups changed remotely, those deleted remotely
    included, together with the folders; then [Update()] is called on each
    of these groups, once for each time it was given and on the deleted
    ones too, and on no other group. *)
Theorem Sync_broad_phase (fileGroups : list GroupPtr) (folders : list string)
  (s : State World) :
  let w := StatusProvider_refresh fileGroups [] (world s) in
  let v := fst (deletion_partition w (relevance_filter w fileGroups)) in
  is_empty (relevance_filter w fileGroups) = false ->
  Permutation v (filter (changed_remotely w) fileGroups)
  /\ Permutation (GetAllFiles w v)
       (flat_map (IFilesGroupProvider_GetFiles w) (filter (changed_remotely w) fileGroups))
  /\ exists rest,
       log (Sync fileGroups folders (Some user_callback) s)
       = log s ++ EvUpdateStatus fileGroups [] :: EvGetLatest (GetAllFiles w v) folders
                    :: map EvUpdate v ++ rest
       /\ filter is_update rest = [].
Proof.
  cbv zeta. intros Hkept.
  assert (Hv : Permutation
                 (fst (deletion_partition (StatusProvider_refresh fileGroups [] (world s))
                         (relevance_filter (StatusProvider_refresh fileGroups [] (world s))
                            fileGroups)))
                 (filter (changed_remotely (StatusProvider_refresh fileGroups [] (world s)))
                    fileGroups)).
  { eapply perm_trans; [|apply relevance_filter_perm].
    apply Permutation_sym. unfold deletion_partition. apply std_partition_perm. }
  split; [exact Hv|]. split.
  - rewrite GetAllFiles_concat. now apply Permutation_flat_map.
  - rewrite Sync_callback_log, Sync_None_log. cbv zeta. rewrite Hkept.
    eexists. split.
    + rewrite <- app_assoc. cbn [app]. rewrite <- app_assoc. reflexivity.
    + rewrite filter_app.
      destruct (is_empty (erase_deleted _ _)); [reflexivity|].
      destruct (is_empty (fst (FindMissingStrings _ _))); reflexivity.
Qed.

(** X13: when every group changed remotely is deleted remotely, and there
    is one, the run is the status refresh, one pull of their files with the
    folders, their updates and the callback: no group is left to compare
    and no second pull is issued. *)
Theorem Sync_all_deleted (fileGroups : list GroupPtr) (folders : list string)
  (s : State World) :
  let w := StatusProvider_refresh fileGroups [] (world s) in
  let v := fst (deletion_partition w (relevance_filter w fileGroups)) in
  is_empty (relevance_filter w fileGroups) = false ->
  (forall g, In g fileGroups -> changed_remotely w g = true -> deleted_remotely w g = true) ->
  log (Sync fileGroups folders (Some user_callback) s)
  = log s ++ EvUpdateStatus fileGroups [] :: EvGetLatest (GetAllFiles w v) folders
               :: map EvUpdate v ++ [EvCallback].
Proof.
  cbv zeta. intros Hkept Hdel.
  rewrite Sync_callback_log, Sync_None_log. cbv zeta. rewrite Hkept.
  assert (Hnone : erase_deleted
            (snd (deletion_partition (StatusProvider_refresh fileGroups [] (world s))
                    (relevance_filter (StatusProvider_refresh fileGroups [] (world s))
                       fileGroups)))
            (fst (deletion_partition (StatusProvider_refresh fileGroups [] (world s))
                    (relevance_filter (StatusProvider_refresh fileGroups [] (world s))
                       fileGroups))) = []).
  { rewrite erase_deleted_front. unfold deletion_partition.
    apply Permutation_nil, Permutation_sym.
    eapply perm_trans; [apply std_partition_front_perm|].
    rewrite filter_none; [apply Permutation_refl|].
    apply forallb_forall. intros g Hg. rewrite negb_involutive.
    apply relevance_filter_In in Hg. destruct Hg as [Hin Hch].
    exact (Hdel g Hin Hch). }
  rewrite Hnone. cbn [is_empty].
  rewrite app_nil_r, <- app_assoc. reflexivity.
Qed.

(** X14: a file of [newFiles] that [originalFiles] does not hold letter for
    letter is never left out: [CompareFilesAndDownloadMissing] then issues
    the second pull, and the file is among those it asks for. *)
Theorem narrow_pull_never_misses (newFiles originalFiles : list string) (file : string)
  (s : State World) :
  In file newFiles -> ~ In file originalFiles ->
  let missingFiles := fst (FindMissingStrings newFiles originalFiles) in
  In file missingFiles
  /\ CompareFilesAndDownloadMissing newFiles originalFiles (Some user_callback) s
     = {| world := VersionControl_pull missingFiles [] (world s);
          log := log s ++ [EvGetLatest missingFiles []; EvCallback] |}.
Proof.
  intros Hnew Hold. cbv zeta.
  pose proof (@FindMissingStrings_reports_absent _ newFiles originalFiles file Hnew Hold)
    as Hin.
  split; [exact Hin|].
  rewrite CompareFilesAndDownloadMissing_eq.
  destruct (fst (FindMissingStrings newFiles originalFiles)); [destruct Hin | reflexivity].
Qed.

Lemma FindMissingStrings_none_lower_case (vec1 vec2 : list string) :
  Forall CryString.lower_case vec1 -> Forall CryString.lower_case vec2 ->
  (forall x, count_occ string_dec vec1 x <= count_occ string_dec vec2 x) ->
  fst (FindMissingStrings vec1 vec2) = [].
Proof.
  intros H1 H2 Hle. apply (count_occ_inv_nil string_dec). intros x.
  unfold FindMissingStrings. cbn [fst].
  rewrite (std_set_difference_count string_dec CryStringFacts.ltb_irrefl less_trichotomy).
  - rewrite <- !(proj1 (Permutation_count_occ string_dec _ _)
                   (std_sort_perm CryString.less_stricmp _)).
    specialize (Hle x). lia.
  - apply sorted_lower_case;
      [eapply Permutation_Forall; [apply std_sort_perm | exact H1]
      |apply std_sort_sorted, CryStringFacts.less_stricmp_swo].
  - apply sorted_lower_case;
      [eapply Permutation_Forall; [apply std_sort_perm | exact H2]
      |apply std_sort_sorted, CryStringFacts.less_stricmp_swo].
Qed.

(** X15: on paths without capitals no pull is wasted: when every file of
    [newFiles] occurs in [originalFiles] at least as often,
    [CompareFilesAndDownloadMissing] issues no pull and calls the callback
    at once. *)
Theorem narrow_pull_skipped_lower_case (newFiles originalFiles : list string)
  (s : State World) :
  Forall CryString.lower_case newFiles -> Forall CryString.lower_case originalFiles ->
  (forall x, count_occ string_dec newFiles x <= count_occ string_dec originalFiles x) ->
  CompareFilesAndDownloadMissing newFiles originalFiles (Some user_callback) s
  = {| world := world s; log := log s ++ [EvCallback] |}.
Proof.
  intros H1 H2 Hle.
  rewrite CompareFilesAndDownloadMissing_eq.
  now rewrite (FindMissingStrings_none_lower_case H1 H2 Hle).
Qed.

End RunProperties.

(** ** The overload for one file group *)

Section OneGroup.
Context {SA : StdAlgorithms} {C : Collaborators}.

Lemma deletion_partition_one_deleted (w : World) (g : GroupPtr) :
  deleted_remotely w g = true -> deletion_partition w [g] = ([g], 0).
Proof.
  intros Hg. unfold deletion_partition.
  rewrite (surjective_pairing (std_partition _ _)). f_equal.
  - apply Permutation_length_1_inv, std_partition_perm.
  - rewrite std_partition_point. simpl.
    unfold deleted_remotely in Hg. now rewrite Hg.
Qed.

Lemma deleted_is_changed (w : World) (g : GroupPtr) :
  deleted_remotely w g = true -> changed_remotely w g = true.
Proof.
  intros Hg. rewrite changed_remotely_or. unfold deleted_remotely in Hg.
  rewrite Hg. apply orb_true_r.
Qed.

(** X16: [Sync] of one file group, in full.  A group not changed
    remotely: the status refresh and the callback.  A group deleted
    remotely: its files are pulled, it is updated, and the callback
    follows with no second pull.  A group updated remotely: its files are
    pulled, it is updated, what [FindMissingStrings] reports of its new
    files against its old ones is pulled if there is any, and the
    callback follows.  No folder is ever pulled. *)
Theorem Sync_fileGroup_runs (pFileGroup : GroupPtr) (s : State World) :
  let w := StatusProvider_refresh [pFileGroup] [] (world s) in
  let files := IFilesGroupProvider_GetFiles w pFileGroup in
  let w3 := IFilesGroupProvider_Update pFileGroup (VersionControl_pull files [] w) in
  let missingFiles :=
    fst (FindMissingStrings (IFilesGroupProvider_GetFiles w3 pFileGroup) files) in
  (changed_remotely w pFileGroup = false ->
     log (Sync_fileGroup pFileGroup (Some user_callback) s)
     = log s ++ [EvUpdateStatus [pFileGroup] []; EvCallback])
  /\ (deleted_remotely w pFileGroup = true ->
     log (Sync_fileGroup pFileGroup (Some user_callback) s)
     = log s ++ [EvUpdateStatus [pFileGroup] []; EvGetLatest files [];
                 EvUpdate pFileGroup; EvCallback])
  /\ (changed_remotely w pFileGroup = true -> deleted_remotely w pFileGroup = false ->
     log (Sync_fileGroup pFileGroup (Some user_callback) s)
     = log s ++ [EvUpdateStatus [pFileGroup] []; EvGetLatest files []; EvUpdate pFileGroup]
         ++ (if is_empty missingFiles then [] else [EvGetLatest missingFiles []])
         ++ [EvCallback]).
Proof.
  cbv zeta. unfold Sync_fileGroup.
  split; [|split].
  - intros Hch. rewrite Sync_callback_log, Sync_None_log. cbv zeta.
    rewrite relevance_filter_nil by (simpl; now rewrite Hch).
    cbn [is_empty]. now rewrite <- app_assoc.
  - intros Hdel. rewrite Sync_callback_log, Sync_None_log. cbv zeta.
    rewrite (relevance_filter_one _ _ (deleted_is_changed _ _ Hdel)).
    rewrite (deletion_partition_one_deleted _ _ Hdel).
    cbn. now rewrite <- app_assoc.
  - intros Hch Hdel. rewrite Sync_callback_log, Sync_None_log. cbv zeta.
    rewrite (relevance_filter_one _ _ Hch).
    rewrite (deletion_partition_one _ _ Hdel).
    cbn [fst snd is_empty erase_deleted erase_from firstn Nat.eqb negb
           List.length GetAllFiles fold_left map app].
    rewrite <- !app_assoc. cbn [app]. reflexivity.
Qed.

End OneGroup.

(** ** Layer files on disk *)

Section FsDirInduction.
Variable P : FsDir -> Prop.
Hypothesis P_Dir : forall layers folders,
  Forall (fun entry => P (snd entry)) folders -> P (Dir layers folders).

(** Induction on a directory tree: the sub-directories come first. *)
Fixpoint FsDir_induction (dir : FsDir) : P dir :=
  match dir with
  | Dir layers folders =>
      P_Dir layers
        ((fix each (fs : list (string * FsDir)) : Forall (fun entry => P (snd entry)) fs :=
            match fs with
            | [] => Forall_nil _
            | entry :: rest => Forall_cons entry (FsDir_induction (snd entry)) (each rest)
            end) folders)
  end.

End FsDirInduction.

Section LayerFiles.
Context {C : Collaborators}.

Lemma AddLayerFilesInFolderToVec_Dir (path : string) (layers : list string)
  (folders : list (string * FsDir)) (layersFiles : list string) :
  AddLayerFilesInFolderToVec path (Dir layers folders) layersFiles
  = subfolders_of path folders (layersFiles ++ map (path_join path) layers).
Proof. reflexivity. Qed.

Lemma subfolders_of_cons (path folder : string) (sub : FsDir)
  (rest : list (string * FsDir)) (acc : list string) :
  subfolders_of path ((folder, sub) :: rest) acc
  = subfolders_of path rest (AddLayerFilesInFolderToVec (path_join path folder) sub acc).
Proof. reflexivity. Qed.

Lemma AddLayerFilesInFolderToVec_appends (dir : FsDir) :
  forall path layersFiles,
    AddLayerFilesInFolderToVec path dir layersFiles
    = layersFiles ++ AddLayerFilesInFolderToVec path dir [].
Proof.
  induction dir as [layers folders IH] using FsDir_induction.
  intros path layersFiles.
  assert (Hsub : forall acc,
    subfolders_of path folders acc = acc ++ subfolders_of path folders []).
  { induction folders as [|[folder sub] rest IHrest]; intros acc.
    - now rewrite app_nil_r.
    - apply Forall_cons_iff in IH. destruct IH as [Hsub Hrest]. cbn [snd] in Hsub.
      rewrite !subfolders_of_cons.
      rewrite (IHrest Hrest (AddLayerFilesInFolderToVec _ sub acc)).
      rewrite (IHrest Hrest (AddLayerFilesInFolderToVec _ sub [])).
      rewrite (Hsub _ acc). now rewrite app_assoc. }
  rewrite !AddLayerFilesInFolderToVec_Dir.
  rewrite (Hsub (layersFiles ++ _)), (Hsub ([] ++ _)).
  now rewrite app_assoc.
Qed.

Lemma subfolders_of_flat_map (path : string) (folders : list (string * FsDir))
  (acc : list string) :
  subfolders_of path folders acc
  = acc ++ flat_map (fun entry =>
             AddLayerFilesInFolderToVec (path_join path (fst entry)) (snd entry) [])
           folders.
Proof.
  revert acc. induction folders as [|[folder sub] rest IH]; intros acc.
  - now rewrite app_nil_r.
  - rewrite subfolders_of_cons, IH, AddLayerFilesInFolderToVec_appends.
    cbn [flat_map fst snd]. now rewrite app_assoc.
Qed.

(** X17: [AddLayerFilesInFolderToVec] only appends to the vector it is
    given, and what it appends is the layer files of the directory
    itself, each with the path of the directory and a slash in front,
    followed by what the sub-directories give, one after the other in the
    order listed. *)
Theorem AddLayerFilesInFolderToVec_preorder (path : string) (layers : list string)
  (folders : list (string * FsDir)) (layersFiles : list string) :
  AddLayerFilesInFolderToVec path (Dir layers folders) layersFiles
  = layersFiles ++ map (path_join path) layers
      ++ flat_map (fun entry =>
           AddLayerFilesInFolderToVec (path_join path (fst entry)) (snd entry) [])
         folders.
Proof.
  rewrite AddLayerFilesInFolderToVec_Dir, subfolders_of_flat_map.
  now rewrite app_assoc.
Qed.






End LayerFiles.

(** ** The layers overload *)

Section LayersProperties.
Context {SA : StdAlgorithms} {C : Collaborators}.

Lemma FindMissingStrings_of_itself (vec : list string) :
  fst (FindMissingStrings vec vec) = [].
Proof.
  unfold FindMissingStrings. cbn [fst].
  apply std_set_difference_diag. intros a. apply CryStringFacts.ltb_irrefl.
Qed.

(** X19: when the sync leaves the layer files under the folders as they
    were, no layer is imported: after the calls of the wrapped [Sync] the
    callback follows at once.  With no folder that is always so. *)
Theorem Sync_layers_nothing_new (layers : list LayerPtr) (folders : list string)
  (s : State World) :
  (GetLayersFilesInFolders
     (world (Sync (ToFileGroups_layers (world s) layers) folders None s)) folders
   = GetLayersFilesInFolders (world s) folders ->
   log (Sync_layers layers folders (Some user_callback) s)
   = log (Sync (ToFileGroups_layers (world s) layers) folders None s) ++ [EvCallback])
  /\ log (Sync_layers layers [] (Some user_callback) s)
     = log (Sync (ToFileGroups_layers (world s) layers) [] None s) ++ [EvCallback].
Proof.
  split.
  - intros Hsame. rewrite Sync_layers_log, Hsame, FindMissingStrings_of_itself.
    reflexivity.
  - rewrite Sync_layers_log.
    change (GetLayersFilesInFolders
              (world (Sync (ToFileGroups_layers (world s) layers) [] None s)) [])
      with (@nil string).
    change (GetLayersFilesInFolders (world s) []) with (@nil string).
    rewrite FindMissingStrings_of_itself. reflexivity.
Qed.

Lemma layer_calls_of_imports (w : World) (missingFiles : list string) :
  filter is_layer_call (import_events w missingFiles) = import_events w missingFiles.
Proof.
  revert w. induction missingFiles as [|f t IH]; intros w; simpl; [reflexivity|].
  now rewrite IH.
Qed.

Lemma no_layer_call_in_updates (v : list GroupPtr) :
  filter is_layer_call (map EvUpdate v) = [].
Proof. induction v; simpl; auto. Qed.

Lemma Sync_makes_no_layer_call (fileGroups : list GroupPtr) (folders : list string)
  (s : State World) :
  filter is_layer_call (log (Sync fileGroups folders None s)) = filter is_layer_call (log s).
Proof.
  rewrite Sync_None_log. cbv zeta. rewrite filter_app. cbn [filter is_layer_call].
  destruct (is_empty (relevance_filter _ _)).
  - destruct (is_empty folders); cbn; now rewrite app_nil_r.
  - cbn [filter is_layer_call]. rewrite filter_app, no_layer_call_in_updates. cbn [app].
    destruct (is_empty (erase_deleted _ _)); [cbn; now rewrite app_nil_r|].
    destruct (is_empty (fst (FindMissingStrings _ _))); cbn; now rewrite app_nil_r.
Qed.

(** X20: the only calls into the layer manager are those of the import
    loop, made after the wrapped [Sync] has completed, and every file
    imported is one the scan after the sync found: the wrapped [Sync]
    imports nothing, and no file is imported that is not on disk under
    the folders by then. *)
Theorem Sync_layers_imports_only_found (layers : list LayerPtr) (folders : list string)
  (s : State World) :
  let originalFiles := GetLayersFilesInFolders (world s) folders in
  let s' := Sync (ToFileGroups_layers (world s) layers) folders None s in
  let newFiles := GetLayersFilesInFolders (world s') folders in
  let missingFiles := fst (FindMissingStrings newFiles originalFiles) in
  filter is_layer_call (log (Sync_layers layers folders (Some user_callback) s))
  = filter is_layer_call (log s) ++ import_events (world s') missingFiles
  /\ incl missingFiles newFiles.
Proof.
  cbv zeta. split.
  - rewrite Sync_layers_log, !filter_app, Sync_makes_no_layer_call, layer_calls_of_imports.
    cbn. now rewrite app_nil_r.
  - unfold FindMissingStrings. cbn [fst]. intros x Hx.
    apply std_set_difference_incl in Hx.
    eapply Permutation_in; [apply Permutation_sym, std_sort_perm | exact Hx].
Qed.

End LayersProperties.

(** ** The further properties on scripted worlds *)

Section ScriptedMore.
Local Open Scope string_scope.

(** X8, witness. *)
Lemma FindMissingStrings_never_misses_witness :
  In "B.cgf" (fst (FindMissingStrings ["B.cgf"] ["a.cgf"])).
Proof.
  exact (proj2 (FindMissingStrings_never_misses (SA := usual_algorithms)
                  ["B.cgf"] ["a.cgf"] "B.cgf")
           ltac:(simpl; auto) ltac:(simpl; intuition discriminate)).
Defined.

(** X12, witness: groups 1 and 2 updated, group 3 deleted remotely. *)
Lemma Sync_broad_phase_witness :
  is_empty (relevance_filter (C := Sim.collaborators Sim.mixed) Sim.start [0; 1; 2; 3]) = false
  /\ Permutation
       (GetAllFiles (C := Sim.collaborators Sim.mixed) Sim.start
          (fst (deletion_partition (C := Sim.collaborators Sim.mixed) Sim.start
                  (relevance_filter (C := Sim.collaborators Sim.mixed) Sim.start
                     [0; 1; 2; 3]))))
       ["b.cgf"; "c.cgf"; "d.cgf"].
Proof.
  split; [reflexivity|].
  exact (proj1 (proj2 (Sync_broad_phase (SA := usual_algorithms)
                         (C := Sim.collaborators Sim.mixed)
                         [0; 1; 2; 3] ["Levels"] (Sim.init Sim.mixed) eq_refl))).
Defined.

(** X13, witness: one group, deleted remotely. *)
Lemma Sync_all_deleted_witness :
  log (Sync (C := Sim.collaborators Sim.deletion) [0] [] (Some user_callback)
         (Sim.init Sim.deletion))
  = [EvUpdateStatus [0] []; EvGetLatest ["b.cgf"] []; EvUpdate 0; EvCallback].
Proof.
  exact (Sync_all_deleted (SA := usual_algorithms) (C := Sim.collaborators Sim.deletion)
           [0] [] (Sim.init Sim.deletion) eq_refl (fun g _ _ => eq_refl)).
Defined.

(** X14, witness: the material discovered by the update. *)
Lemma narrow_pull_never_misses_witness :
  In "a.cgf.mtl" (fst (FindMissingStrings ["a.cgf"; "a.cgf.mtl"] ["a.cgf"])).
Proof.
  exact (proj1 (narrow_pull_never_misses (SA := usual_algorithms)
                  (C := Sim.collaborators Sim.discovery)
                  ["a.cgf"; "a.cgf.mtl"] ["a.cgf"] "a.cgf.mtl"
                  (Sim.init Sim.discovery)
                  ltac:(simpl; auto) ltac:(simpl; intuition discriminate))).
Defined.

(** X15, witness: one of the two files of the snapshot is left. *)
Lemma narrow_pull_skipped_lower_case_witness :
  CompareFilesAndDownloadMissing (C := Sim.collaborators Sim.discovery)
    ["a.cgf"] ["a.cgf"; "b.cgf"] (Some user_callback) (Sim.init Sim.discovery)
  = {| world := Sim.start; log := [EvCallback] |}.
Proof.
  exact (narrow_pull_skipped_lower_case (SA := usual_algorithms)
           (C := Sim.collaborators Sim.discovery)
           (newFiles := ["a.cgf"]) (originalFiles := ["a.cgf"; "b.cgf"])
           (Sim.init Sim.discovery)
           ltac:(repeat constructor) ltac:(repeat constructor)
           ltac:(intros x; cbn [count_occ]; repeat destruct (string_dec _ x); lia)).
Defined.

(** X16, witness: the discovery run through the overload for one group. *)
Lemma Sync_fileGroup_runs_witness :
  changed_remotely (C := Sim.collaborators Sim.discovery) Sim.start 0 = true
  /\ log (Sync_fileGroup (C := Sim.collaborators Sim.discovery) 0 (Some user_callback)
            (Sim.init Sim.discovery))
     = [EvUpdateStatus [0] []; EvGetLatest ["a.cgf"] []; EvUpdate 0;
        EvGetLatest ["a.cgf.mtl"] []; EvCallback].
Proof.
  split; [reflexivity|].
  exact (proj2 (proj2 (Sync_fileGroup_runs (SA := usual_algorithms)
                         (C := Sim.collaborators Sim.discovery) 0 (Sim.init Sim.discovery)))
           eq_refl eq_refl).
Defined.

(** X19, witness: no layer file before or after the sync. *)
Lemma Sync_layers_nothing_new_witness :
  log (Sync_layers (C := Sim.collaborators Sim.unchanged) [] ["Levels/Forest"]
         (Some user_callback) (Sim.init Sim.unchanged))
  = [EvUpdateStatus [] []; EvGetLatest [] ["Levels/Forest"]; EvCallback].
Proof.
  exact (proj1 (Sync_layers_nothing_new (SA := usual_algorithms)
                  (C := Sim.collaborators Sim.unchanged) [] ["Levels/Forest"]
                  (Sim.init Sim.unchanged)) eq_refl).
Defined.

End ScriptedMore.
